(** * StudentMLProject: schema completion and train/serve consistency

    A shallow embedding of the glue code of [train_model.py] (the trainer)
    and [app.py] (the Streamlit predictor/explainer), and the properties of
    the schema, the default vector, the Feature Row, the clamped prediction,
    the session state and the local-attribution view.

    - Python dicts ([defaults], [st.session_state]) are [gmap string _];
      a missing key ([KeyError]) is [None].
    - A one-row [pandas.DataFrame] is an ordered list of (column, cell)
      pairs: column order is observable ([input_df[required_cols]]).
    - Python floats are [pyfloat]: NaN, the two infinities, or a finite
      double represented by its exact rational value; [round] returns the
      double nearest to the decimal it rounds to. *)

From Stdlib Require Import QArith Qround Qabs Qpower Lqa.
From stdpp Require Import gmap strings pretty list fin_maps sorting.

Local Open Scope string_scope.
Local Open Scope Z_scope.

(** ** Cells and one-row data frames *)

Inductive cell :=
| CStr (s : string)
| CInt (z : Z).

#[global] Instance cell_eq_dec : EqDecision cell.
Proof. solve_decision. Defined.

Definition DataFrame := list (string * cell).

Module Frame.

(** [df.columns] *)
Definition columns (df : DataFrame) : list string := map fst df.

(** [col in df] *)
Definition contains (col : string) (df : DataFrame) : bool :=
  bool_decide (col ∈ columns df).

(** The cell of column [col] in the single row. *)
Fixpoint get (df : DataFrame) (col : string) : option cell :=
  match df with
  | [] => None
  | (c, v) :: rest => if decide (c = col) then Some v else get rest col
  end.

(** [df[col] = v]: an existing column is overwritten in place, a new
    one is appended after the last column. *)
Fixpoint setitem (df : DataFrame) (col : string) (v : cell) : DataFrame :=
  match df with
  | [] => [(col, v)]
  | (c, w) :: rest =>
      if decide (c = col) then (c, v) :: rest
      else (c, w) :: setitem rest col v
  end.

(** [df[cols]]: the listed columns in the listed order; [KeyError]
    when one of them is not a column of [df]. *)
Fixpoint select (df : DataFrame) (cols : list string) : option DataFrame :=
  match cols with
  | [] => Some []
  | c :: rest =>
      match get df c with
      | None => None
      | Some v =>
          match select df rest with
          | None => None
          | Some r => Some ((c, v) :: r)
          end
      end
  end.

(** [df.drop(columns=labels)]: [KeyError] when a label is not a column;
    otherwise every column carrying one of the labels is removed. *)
Definition drop_columns (labels : list string) (cols : list string)
  : option (list string) :=
  if forallb (fun l => bool_decide (l ∈ cols)) labels
  then Some (filter (fun c => c ∉ labels) cols)
  else None.

End Frame.

(** ** app.py: the form, the schema and the default vector *)

(** The six widgets of the input form (app.py:44-51). *)
Record user_fields := {
  school : string;
  sex : string;
  age : Z;
  studytime : Z;
  failures : Z;
  absences : Z
}.

(** The ranges the widgets restrict their values to. *)
Definition valid_user_fields (u : user_fields) : Prop :=
  (school u = "GP" ∨ school u = "MS") ∧
  (sex u = "F" ∨ sex u = "M") ∧
  15 ≤ age u ≤ 22 ∧
  1 ≤ studytime u ≤ 4 ∧
  0 ≤ failures u ≤ 4 ∧
  0 ≤ absences u ≤ 50.

(** app.py:56-63 *)
Definition required_cols : list string := [
  "school"; "sex"; "age"; "address"; "famsize"; "Pstatus";
  "Medu"; "Fedu"; "Mjob"; "Fjob"; "reason"; "guardian";
  "traveltime"; "studytime"; "failures"; "schoolsup";
  "famsup"; "paid"; "activities"; "nursery"; "higher";
  "internet"; "romantic"; "famrel"; "freetime"; "goout";
  "Dalc"; "Walc"; "health"; "absences"; "G1"; "G2"; "G3"
].

(** app.py:65-93 *)
Definition defaults : gmap string cell := list_to_map [
  ("address", CStr "U");
  ("famsize", CStr "GT3");
  ("Pstatus", CStr "T");
  ("Medu", CInt 2);
  ("Fedu", CInt 2);
  ("Mjob", CStr "other");
  ("Fjob", CStr "other");
  ("reason", CStr "course");
  ("guardian", CStr "mother");
  ("traveltime", CInt 1);
  ("schoolsup", CStr "no");
  ("famsup", CStr "no");
  ("paid", CStr "no");
  ("activities", CStr "no");
  ("nursery", CStr "yes");
  ("higher", CStr "yes");
  ("internet", CStr "yes");
  ("romantic", CStr "no");
  ("famrel", CInt 3);
  ("freetime", CInt 3);
  ("goout", CInt 3);
  ("Dalc", CInt 1);
  ("Walc", CInt 1);
  ("health", CInt 3);
  ("G1", CInt 10);
  ("G2", CInt 10);
  ("G3", CInt 10)
].

(** The keys of the dict literal the form values are put in
    (app.py:107-114). *)
Definition user_cols : list string :=
  ["school"; "sex"; "age"; "studytime"; "failures"; "absences"].

(** [pd.DataFrame([{...}])], app.py:107-114 *)
Definition user_frame (u : user_fields) : DataFrame := [
  ("school", CStr (school u));
  ("sex", CStr (sex u));
  ("age", CInt (age u));
  ("studytime", CInt (studytime u));
  ("failures", CInt (failures u));
  ("absences", CInt (absences u))
].

(** The default-filling loop, app.py:116-118.  [defaults[col]] raises
    [KeyError] on a column that has no default. *)
Fixpoint fill_defaults (cols : list string) (input_df : DataFrame)
  : option DataFrame :=
  match cols with
  | [] => Some input_df
  | col :: rest =>
      if Frame.contains col input_df then fill_defaults rest input_df
      else
        match defaults !! col with
        | None => None
        | Some d => fill_defaults rest (Frame.setitem input_df col d)
        end
  end.

(** app.py:116-120: fill, then [input_df = input_df[required_cols]]. *)
Definition complete_row (input_df : DataFrame) : option DataFrame :=
  match fill_defaults required_cols input_df with
  | None => None
  | Some filled => Frame.select filled required_cols
  end.

Definition feature_row (u : user_fields) : option DataFrame :=
  complete_row (user_frame u).

(** ** train_model.py: target, features and preprocessor *)

(** train_model.py:17-21 *)
Definition categorical_cols : list string := [
  "school"; "sex"; "address"; "famsize"; "Pstatus"; "Mjob"; "Fjob";
  "reason"; "guardian"; "schoolsup"; "famsup"; "paid"; "activities";
  "nursery"; "higher"; "internet"; "romantic"
].

(** [X = df.drop(columns=["G3"])], train_model.py:14, on the header of
    the dataset read at line 10. *)
Definition X_columns (df_columns : list string) : option (list string) :=
  Frame.drop_columns ["G3"] df_columns.



(** ** Python numbers *)

(** A Python [float]: a finite double is represented by the rational it
    denotes, so comparisons and [abs] are exact. *)
Inductive pyfloat :=
| NaN
| PInf
| NInf
| Fin (q : Q).

(** What [max]/[min] return here: one of their arguments, an [int]
    literal or the rounded [float]. *)
Inductive pynum :=
| PyInt (z : Z)
| PyFloat (f : pyfloat).

Definition to_float (n : pynum) : pyfloat :=
  match n with
  | PyInt z => Fin (inject_Z z)
  | PyFloat f => f
  end.

(** [a < b] on floats: false as soon as one side is NaN. *)
Definition float_lt (a b : pyfloat) : bool :=
  match a, b with
  | NaN, _ | _, NaN => false
  | _, NInf => false
  | NInf, _ => true
  | PInf, _ => false
  | Fin _, PInf => true
  | Fin x, Fin y => match (x ?= y)%Q with Lt => true | _ => false end
  end.

Definition py_lt (a b : pynum) : bool := float_lt (to_float a) (to_float b).

(** [min(a, b)]: the first argument unless the second is smaller. *)
Definition py_min (a b : pynum) : pynum := if py_lt b a then b else a.

(** [max(a, b)]: the first argument unless the second is greater. *)
Definition py_max (a b : pynum) : pynum := if py_lt a b then b else a.

(** Nearest integer, ties to the even one. *)
Definition round_half_even (q : Q) : Z :=
  let f := Qfloor q in
  match (q - inject_Z f ?= 1 # 2)%Q with
  | Lt => f
  | Gt => f + 1
  | Eq => if Z.even f then f else f + 1
  end.

(** The exponent of a positive rational: [2 ^ ilog2 v <= v < 2 ^ (ilog2 v + 1)]. *)
Definition ilog2 (v : Q) : Z :=
  let c := Z.log2 (Qnum v) - Z.log2 (Zpos (Qden v)) in
  if Qle_bool (2 ^ c) v then c else c - 1.

(** The double nearest to a positive rational, ties to the even
    significand: 53 significant bits at the exponent of [v]. *)
Definition nearest_double_pos (v : Q) : Q :=
  let u := ilog2 v - 52 in
  (inject_Z (round_half_even (v / 2 ^ u)) * 2 ^ u)%Q.

(** The conversion of a decimal to a double ([strtod]), as an exact
    value.  It is applied to hundredths [k / 100] only: these are 0 or at
    least 0.01 in magnitude, above the subnormal range, and for a double
    [x] the hundredths [round] reaches do not exceed the largest double
    (from 2^52 on [x] is an integer and rounds to itself); so neither
    gradual underflow nor overflow is modelled. *)
Definition nearest_double (v : Q) : Q :=
  Qred match (v ?= 0)%Q with
       | Eq => 0%Q
       | Gt => nearest_double_pos v
       | Lt => (- nearest_double_pos (- v))%Q
       end.

(** [round(x, 2)]: NaN and the infinities round to themselves; a finite
    [x] is rounded to hundredths on its exact value, ties to even, and
    the decimal obtained is converted back to the nearest double. *)
Definition py_round2 (x : pyfloat) : pyfloat :=
  match x with
  | Fin q => Fin (nearest_double (round_half_even (q * 100) # 100))
  | _ => x
  end.

(** app.py:124, [max(0, min(20, round(prediction, 2)))] *)
Definition clamp_prediction (prediction : pyfloat) : pynum :=
  py_max (PyInt 0) (py_min (PyInt 20) (PyFloat (py_round2 prediction))).

(** The value of a number that is neither NaN nor infinite. *)
Definition finite_value (n : pynum) : option Q :=
  match to_float n with
  | Fin q => Some q
  | _ => None
  end.

(** [n] is a grade between 0 and 20. *)
Definition in_grade_range (n : pynum) : Prop :=
  ∃ q, finite_value n = Some q ∧ (0 <= q)%Q ∧ (q <= 20)%Q.

(** [n] is rounded to two decimal places: it is the double nearest to a
    whole number of hundredths. *)
Definition two_decimals (n : pynum) : Prop :=
  ∃ (q : Q) (k : Z), finite_value n = Some q ∧ (q == nearest_double (k # 100))%Q.

(** ** The loaded pipeline *)

(** What app.py uses of the unpickled pipeline and of the explainer built
    on its regressor (app.py:19-23): [preprocess.transform], which may
    raise, [regressor.predict(X_trans)[0]] on the one transformed row,
    [explainer.shap_values(X_trans)[0]], [preprocess.get_feature_names_out()]
    and [regressor.feature_importances_]. *)
Record artifact := {
  transform : DataFrame → option (list Q);
  regressor_predict : list Q → pyfloat;
  shap_values : list Q → list Q;
  get_feature_names_out : list string;
  feature_importances : list Q
}.

(** app.py:107-124 without the session: the Feature Row with its clamped
    prediction. *)
Definition predict_row (art : artifact) (input_df : DataFrame) : option pynum :=
  match transform art input_df with
  | None => None
  | Some X_trans => Some (clamp_prediction (regressor_predict art X_trans))
  end.

Definition predict (art : artifact) (u : user_fields) : option pynum :=
  match feature_row u with
  | None => None
  | Some input_df => predict_row art input_df
  end.

(** The loaded pipeline transforms the Feature Row of every valid form
    input. *)
Definition accepts_feature_rows (art : artifact) : Prop :=
  ∀ u row, valid_user_fields u → feature_row u = Some row →
           is_Some (transform art row).

(** ** Sorting a two-column frame and taking its head *)

(** A row of [shap_df] after line 154. *)
Record shap_row := {
  Feature : string;
  SHAP_Value : Q;
  Impact : Q
}.

#[global] Instance Qle_decision (x y : Q) : Decision (x <= y)%Q.
Proof.
  destruct (Qlt_le_dec y x) as [Hlt | Hle].
  - right. apply Qlt_not_le, Hlt.
  - left. exact Hle.
Defined.

(** [a] may stand before [b] when sorting by [key], descending. *)
Definition key_desc {A} (key : A → Q) : relation A :=
  λ a b, (key b <= key a)%Q.

#[global] Instance key_desc_dec {A} (key : A → Q) (a b : A) :
  Decision (key_desc key a b).
Proof. unfold key_desc. apply _. Defined.

(** [df.sort_values(key, ascending=False)].  pandas leaves the order of
    rows with equal keys to the sorting kind; nothing below depends on
    it. *)
Definition sort_values_desc {A} (key : A → Q) (rows : list A) : list A :=
  merge_sort (key_desc key) rows.

(** [df.head(n)] *)
Definition head {A} (n : nat) (rows : list A) : list A := take n rows.

(** [pd.DataFrame({a: xs, b: ys})]: [ValueError] unless the two columns
    have the same length. *)
Definition frame2 {A B} (xs : list A) (ys : list B) : option (list (A * B)) :=
  if decide (length xs = length ys) then Some (zip xs ys) else None.

(** app.py:154, [shap_df["Impact"] = shap_df["SHAP Value"].abs()] *)
Definition with_impact (shap_df : list (string * Q)) : list shap_row :=
  map (λ r, {| Feature := r.1; SHAP_Value := r.2; Impact := Qabs r.2 |}) shap_df.

(** app.py:155-157 *)
Definition top_shap (shap_df : list (string * Q)) : list shap_row :=
  head 10 (sort_values_desc Impact (with_impact shap_df)).

(** app.py:160-162: the bars drawn, label and signed length. *)
Definition barh (top : list shap_row) : list (string * Q) :=
  map (λ r, (Feature r, SHAP_Value r)) top.

(** app.py:188-193 *)
Definition top10 (fi_df : list (string * Q)) : list (string * Q) :=
  head 10 (sort_values_desc snd fi_df).

(** ** The script and its session *)

(** What the script stores in [st.session_state]. *)
Inductive pyobj :=
| ObjFrame (df : DataFrame)
| ObjNum (n : pynum).

(** The session dict, with the keys the running code has looked up in it
    ([k in st.session_state] and [st.session_state[k]]), oldest first. *)
Record world := {
  session : gmap string pyobj;
  lookups : list string
}.

(** A piece of the script: it may raise ([None]); what it stored before
    raising stays stored. *)
Definition Script (A : Type) : Type := world → option A * world.

Module Script.

Definition ret {A} (a : A) : Script A := λ w, (Some a, w).

Definition bind {A B} (m : Script A) (k : A → Script B) : Script B :=
  λ w, match m w with
       | (Some a, w') => k a w'
       | (None, w') => (None, w')
       end.

Definition lift {A} (o : option A) : Script A := λ w, (o, w).

(** [key in st.session_state] *)
Definition contains (key : string) : Script bool :=
  λ w, (Some (bool_decide (is_Some (session w !! key))),
        {| session := session w; lookups := (lookups w ++ [key])%list |}).

(** [st.session_state[key]] *)
Definition get (key : string) : Script pyobj :=
  λ w, (session w !! key,
        {| session := session w; lookups := (lookups w ++ [key])%list |}).

(** [st.session_state[key] = v] *)
Definition set (key : string) (v : pyobj) : Script unit :=
  λ w, (Some tt, {| session := <[key := v]> (session w); lookups := lookups w |}).

End Script.

#[global] Instance script_ret : MRet Script := @Script.ret.
#[global] Instance script_bind : MBind Script := λ A B k m, Script.bind m k.

(** [preprocess.transform(obj)] on a stored object. *)
Definition transform_obj (art : artifact) (o : pyobj) : option (list Q) :=
  match o with
  | ObjFrame df => transform art df
  | ObjNum _ => None
  end.

(** app.py:105-129, the body of [if predict_btn:]. *)
Definition run_prediction (art : artifact) (u : user_fields) : Script pynum :=
  input_df ← Script.lift (feature_row u);
  X_trans ← Script.lift (transform art input_df);
  let prediction := clamp_prediction (regressor_predict art X_trans) in
  Script.set "input_df" (ObjFrame input_df) ;;
  Script.set "prediction" (ObjNum prediction) ;;
  Script.ret prediction.

(** app.py:142-177, the local-attribution tab: the bars it draws. *)
Definition tab1 (art : artifact) : Script (list (string * Q)) :=
  input_df ← Script.get "input_df";
  X_trans ← Script.lift (transform_obj art input_df);
  shap_df ← Script.lift (frame2 (get_feature_names_out art) (shap_values art X_trans));
  Script.ret (barh (top_shap shap_df)).

(** app.py:185-220, the global-importance tab: the bars it draws. *)
Definition tab2 (art : artifact) : Script (list (string * Q)) :=
  fi_df ← Script.lift (frame2 (get_feature_names_out art) (feature_importances art));
  Script.ret (top10 fi_df).

(** What one run of the script shows. *)
Record page := {
  success : option pynum;
  tabs : option (list (string * Q) * list (string * Q))
}.

(** One run of app.py from line 105 on, for the current widget values and
    the state of the button. *)
Definition script (art : artifact) (u : user_fields) (predict_btn : bool)
  : Script page :=
  shown ← (if predict_btn
           then (p ← run_prediction art u; Script.ret (Some p))
           else Script.ret None);
  has ← Script.contains "prediction";
  if has : bool then
    t1 ← tab1 art;
    t2 ← tab2 art;
    Script.ret {| success := shown; tabs := Some (t1, t2) |}
  else Script.ret {| success := shown; tabs := None |}.

(** The session a run leaves behind, whether it raised or not. *)
Definition session_after (art : artifact) (ss : gmap string pyobj)
    (i : user_fields * bool) : gmap string pyobj :=
  session (script art i.1 i.2 {| session := ss; lookups := [] |}).2.

(** The session after a series of runs, oldest first. *)
Definition session_after_all (art : artifact) (ss : gmap string pyobj)
    (runs : list (user_fields * bool)) : gmap string pyobj :=
  foldl (session_after art) ss runs.

(** The keys a piece of the script looks up in the session [ss]. *)
Definition lookups_of {A} (m : Script A) (ss : gmap string pyobj) : list string :=
  lookups (m {| session := ss; lookups := [] |}).2.

(** What a piece of the script returns on the session [ss]. *)
Definition result_of {A} (m : Script A) (ss : gmap string pyobj) : option A :=
  (m {| session := ss; lookups := [] |}).1.

(** ** train_model.py: the preprocessor *)

(** [OneHotEncoder(handle_unknown=...)] *)
Inductive handle_unknown_policy :=
| HU_error
| HU_ignore.

(** [ColumnTransformer(remainder=...)] *)
Inductive remainder_policy :=
| Rem_drop
| Rem_passthrough.

Record OneHotEncoder := {
  handle_unknown : handle_unknown_policy
}.

(** A [ColumnTransformer] with one transformer, a one-hot encoder. *)
Record ColumnTransformer := {
  encoder : OneHotEncoder;
  encoded_cols : list string;
  remainder : remainder_policy
}.

(** train_model.py:24-29 *)
Definition preprocess : ColumnTransformer := {|
  encoder := {| handle_unknown := HU_ignore |};
  encoded_cols := categorical_cols;
  remainder := Rem_passthrough
|}.

(** Modelled from the spec: the encoder's transform is scikit-learn's,
    which is not part of the repository.  The one-hot encoding of a level
    is its indicator vector over the levels seen at fit time. *)
Definition one_hot (levels : list cell) (v : cell) : list Q :=
  map (λ l, if decide (l = v) then 1%Q else 0%Q) levels.

(** Modelled from the spec: the encoder's transform of one cell, which is
    scikit-learn's.  A level seen at fit time gets its one-hot vector; an
    unseen one is, under the "ignore unknown" policy, "mapped to an
    all-zero encoding rather than raising an error" (section 4.1), and
    raises under the other policy. *)
Definition encode (enc : OneHotEncoder) (levels : list cell) (v : cell)
  : option (list Q) :=
  if decide (v ∈ levels) then Some (one_hot levels v)
  else
    match handle_unknown enc with
    | HU_ignore => Some (replicate (length levels) 0%Q)
    | HU_error => None
    end.

(** Modelled from the spec: a cell "pass[ed] through unchanged" (section
    4.1) as the regressor receives it, a number; the array conversion is
    scikit-learn's. *)
Definition as_number (v : cell) : option Q :=
  match v with
  | CInt z => Some (inject_Z z)
  | CStr _ => None
  end.

(** Modelled from the spec: the encoded block of the fitted transform,
    which is scikit-learn's: "one-hot encoding to the [...] named
    categorical columns" (section 4.1), one after the other.  [levels c]
    are the levels of column [c] seen at fit time; columns are found by
    name, and a missing one raises. *)
Fixpoint encode_cols (enc : OneHotEncoder) (levels : string → list cell)
    (cols : list string) (df : DataFrame) : option (list Q) :=
  match cols with
  | [] => Some []
  | c :: rest =>
      v ← Frame.get df c;
      e ← encode enc (levels c) v;
      r ← encode_cols enc levels rest df;
      Some (e ++ r)%list
  end.

(** Modelled from the spec: the remainder block of the fitted transform,
    which is scikit-learn's: "passing all other columns through
    unchanged" (section 4.1). *)
Fixpoint passthrough_cols (cols : list string) (df : DataFrame)
  : option (list Q) :=
  match cols with
  | [] => Some []
  | c :: rest =>
      v ← Frame.get df c;
      x ← as_number v;
      r ← passthrough_cols rest df;
      Some (x :: r)
  end.

(** Modelled from the spec: the fitted [ColumnTransformer.transform] on
    one row, which is scikit-learn's: the encoded block, then the columns
    seen at fit time ([names_in]) that are not encoded. *)
Definition ct_transform (ct : ColumnTransformer) (names_in : list string)
    (levels : string → list cell) (df : DataFrame) : option (list Q) :=
  e ← encode_cols (encoder ct) levels (encoded_cols ct) df;
  r ← match remainder ct with
      | Rem_drop => Some []
      | Rem_passthrough =>
          passthrough_cols (filter (λ c, c ∉ encoded_cols ct) names_in) df
      end;
  Some (e ++ r)%list.

(** The text of a level in a column name. *)
Definition cell_label (v : cell) : string :=
  match v with
  | CStr s => s
  | CInt z => pretty z
  end.

(** Modelled from the spec: [get_feature_names_out], which is
    scikit-learn's: one name per fitted level of each encoded column, then
    one per passed-through column ("as many entries as the transformed
    feature space has columns", section 3). *)
Definition ct_feature_names (ct : ColumnTransformer) (names_in : list string)
    (levels : string → list cell) : list string :=
  (encoded_cols ct ≫= λ c, map (λ l, "cat__" +:+ c +:+ "_" +:+ cell_label l) (levels c))
  ++ match remainder ct with
     | Rem_drop => []
     | Rem_passthrough =>
         map (λ c, "remainder__" +:+ c)
             (filter (λ c, c ∉ encoded_cols ct) names_in)
     end.

(** The pipeline train_model.py saves, as app.py loads it: [preprocess]
    fitted on the columns [names_in] with the levels [levels], and a
    fitted regressor with its explainer. *)
Definition trained_pipeline (names_in : list string)
    (levels : string → list cell) (regressor : list Q → pyfloat)
    (explainer : list Q → list Q) (importances : list Q) : artifact := {|
  transform := ct_transform preprocess names_in levels;
  regressor_predict := regressor;
  shap_values := explainer;
  get_feature_names_out := ct_feature_names preprocess names_in levels;
  feature_importances := importances
|}.

(** Modelled from the spec: the dataset data/student-por.csv is not part
    of the sources.  Its header row "match[es] the named columns" of the
    Feature Schema (section 6): the columns train_model.py:48 prints and
    app.py:56-63 lists. *)
Definition df_columns : list string := required_cols.

(** ** Reference values *)

(** A frame overlaid on the default vector, read at one column. *)
Definition overlay (df : DataFrame) (col : string) : option cell :=
  match Frame.get df col with
  | Some v => Some v
  | None => defaults !! col
  end.

(** The values the widgets start with (app.py:44-51). *)
Definition initial_fields : user_fields := {|
  school := "GP";
  sex := "F";
  age := 17;
  studytime := 2;
  failures := 0;
  absences := 2
|}.

(** The same six form values put in the dict in another order. *)
Definition shuffled_frame (u : user_fields) : DataFrame := [
  ("absences", CInt (absences u));
  ("sex", CStr (sex u));
  ("failures", CInt (failures u));
  ("school", CStr (school u));
  ("studytime", CInt (studytime u));
  ("age", CInt (age u))
].

(** A pipeline of the trainer's shape to evaluate the script on: two
    levels per encoded column, a regressor averaging its inputs, an
    explainer centring them. *)
Definition demo_levels (c : string) : list cell :=
  if decide (c = "school") then [CStr "GP"; CStr "MS"]
  else if decide (c = "sex") then [CStr "F"; CStr "M"]
  else [CStr "no"; CStr "yes"].

Definition demo_regressor (x : list Q) : pyfloat :=
  Fin (nearest_double (foldr Qplus 0%Q x * (1 # 6))).

Definition demo_explainer (x : list Q) : list Q :=
  map (λ v, Qred (v - (3 # 2))%Q) x.

Definition demo_importances : list Q :=
  replicate 34 (1 # 100)%Q ++ replicate 13 (2 # 100)%Q ++ [20 # 100; 20 # 100]%Q.

Definition demo_pipeline : artifact :=
  trained_pipeline (filter (λ c, c ∉ ["G3"]) required_cols)
    demo_levels demo_regressor demo_explainer demo_importances.

(** The request a run makes, when its button is pressed and the
    pipeline answers: the Feature Row and its clamped prediction. *)
Definition request_of (art : artifact) (i : user_fields * bool)
  : option (DataFrame * pynum) :=
  if i.2 then
    row ← feature_row i.1;
    prediction ← predict_row art row;
    Some (row, prediction)
  else None.

(** The most recent request of a series of runs, oldest first. *)
Definition last_request (art : artifact) (runs : list (user_fields * bool))
  : option (DataFrame * pynum) :=
  foldl (λ acc i, match request_of art i with Some r => Some r | None => acc end)
        None runs.

(** A session that retains nothing, or one Feature Row and its
    prediction. *)
Definition session_of (r : option (DataFrame * pynum)) : gmap string pyobj :=
  match r with
  | None => ∅
  | Some (row, prediction) =>
      <["prediction" := ObjNum prediction]> (<["input_df" := ObjFrame row]> ∅)
  end.

(** The bars of the local-attribution view for a Feature Row. *)
Definition explain_local (art : artifact) (row : DataFrame)
  : option (list (string * Q)) :=
  X_trans ← transform art row;
  shap_df ← frame2 (get_feature_names_out art) (shap_values art X_trans);
  Some (barh (top_shap shap_df)).

(** The bars of the global-importance view. *)
Definition explain_global (art : artifact) : option (list (string * Q)) :=
  fi_df ← frame2 (get_feature_names_out art) (feature_importances art);
  Some (top10 fi_df).

(** Twelve attributions, four of the largest in magnitude negative. *)
Definition demo_shap_df : list (string * Q) := [
  ("f1", 5 # 10); ("f2", -9 # 1); ("f3", 3 # 1); ("f4", -1 # 10);
  ("f5", 7 # 1); ("f6", -6 # 1); ("f7", 2 # 10); ("f8", 4 # 1);
  ("f9", -8 # 1); ("f10", 1 # 1); ("f11", -2 # 1); ("f12", 10 # 1)
]%Q.

(** ** Further reference values *)

(** The second half of a run, app.py:134-220: the two tabs when a
    prediction is retained, with what the first half showed. *)
Definition render_tabs (art : artifact) (shown : option pynum) : Script page :=
  has ← Script.contains "prediction";
  if has : bool then
    t1 ← tab1 art;
    t2 ← tab2 art;
    Script.ret {| success := shown; tabs := Some (t1, t2) |}
  else Script.ret {| success := shown; tabs := None |}.

(** A loaded pipeline whose transform rejects every frame, as one fitted
    on columns the form does not supply would. *)
Definition rejecting_pipeline : artifact := {|
  transform := λ _, None;
  regressor_predict := demo_regressor;
  shap_values := demo_explainer;
  get_feature_names_out := [];
  feature_importances := []
|}.

(** The form values with two more keys: one of a defaulted column, one
    outside the schema. *)
Definition extended_frame (u : user_fields) : DataFrame :=
  (user_frame u ++ [("G1", CInt 15); ("nickname", CStr "Sam")])%list.

(** Twelve importances. *)
Definition demo_fi_df : list (string * Q) := [
  ("g1", 1 # 100); ("g2", 30 # 100); ("g3", 2 # 100); ("g4", 3 # 100);
  ("g5", 4 # 100); ("g6", 25 # 100); ("g7", 5 # 100); ("g8", 6 # 100);
  ("g9", 7 # 100); ("g10", 8 # 100); ("g11", 9 # 100); ("g12", 0 # 100)
]%Q.

(** * Properties *)

(** ** Frames *)

Section frame_lemmas.
Implicit Types (df : DataFrame) (c col : string) (v : cell).

Lemma get_is_Some df c : is_Some (Frame.get df c) ↔ c ∈ Frame.columns df.
Proof.
  induction df as [| [c' w] df IH]; simpl.
  - split; [intros [? ?]; discriminate | intros H; by apply elem_of_nil in H].
  - destruct (decide (c' = c)) as [-> | Hne].
    + split; [intros _; apply list_elem_of_here | eauto].
    + rewrite IH, elem_of_cons. split; [by right | by intros [-> | ?]].
Qed.

Lemma get_None df c : Frame.get df c = None ↔ c ∉ Frame.columns df.
Proof. rewrite <- get_is_Some, eq_None_not_Some. done. Qed.

Lemma contains_true df c : Frame.contains c df = true ↔ c ∈ Frame.columns df.
Proof. unfold Frame.contains. by rewrite bool_decide_eq_true. Qed.

Lemma get_setitem_eq df c v : Frame.get (Frame.setitem df c v) c = Some v.
Proof.
  induction df as [| [c' w] df IH]; simpl.
  - by rewrite decide_True.
  - destruct (decide (c' = c)) as [-> | Hne]; simpl.
    + by rewrite decide_True.
    + by rewrite decide_False.
Qed.

Lemma get_setitem_ne df c c' v :
  c ≠ c' → Frame.get (Frame.setitem df c v) c' = Frame.get df c'.
Proof.
  intros Hne. induction df as [| [c0 w] df IH]; simpl.
  - by rewrite decide_False.
  - destruct (decide (c0 = c)) as [-> | Hne0]; simpl.
    + by rewrite !decide_False.
    + by rewrite IH.
Qed.

Lemma columns_setitem_new df c v :
  c ∉ Frame.columns df →
  Frame.columns (Frame.setitem df c v) = (Frame.columns df ++ [c])%list.
Proof.
  induction df as [| [c' w] df IH]; simpl; [done |].
  rewrite not_elem_of_cons. intros [Hne Hnin].
  rewrite decide_False by done. simpl. by rewrite IH.
Qed.

Lemma select_columns df cols r :
  Frame.select df cols = Some r → Frame.columns r = cols.
Proof.
  revert r. induction cols as [| c cols IH]; simpl; intros r Hsel.
  - by inversion Hsel.
  - destruct (Frame.get df c); [| discriminate].
    destruct (Frame.select df cols) as [r' |]; [| discriminate].
    inversion Hsel; subst. simpl. f_equal. by apply IH.
Qed.

Lemma select_is_Some df cols :
  (∀ c, c ∈ cols → c ∈ Frame.columns df) → is_Some (Frame.select df cols).
Proof.
  induction cols as [| c cols IH]; simpl; intros Hall; [eauto |].
  destruct (proj2 (get_is_Some df c)) as [v ->].
  { apply Hall, list_elem_of_here. }
  destruct IH as [r ->]; [| eauto].
  intros c' Hc'. by apply Hall, list_elem_of_further.
Qed.

Lemma select_get df cols r c :
  Frame.select df cols = Some r → c ∈ cols → Frame.get r c = Frame.get df c.
Proof.
  revert r. induction cols as [| c0 cols IH]; simpl; intros r Hsel Hin.
  - by apply elem_of_nil in Hin.
  - destruct (Frame.get df c0) as [v0 |] eqn:Hget; [| discriminate].
    destruct (Frame.select df cols) as [r' |]; [| discriminate].
    inversion Hsel; subst. simpl.
    destruct (decide (c0 = c)) as [-> | Hne]; [done |].
    apply IH; [done |]. apply elem_of_cons in Hin as [-> | Hin]; done.
Qed.

End frame_lemmas.

(** ** Default filling *)

(* The entries of the dict are looked up by evaluation only. *)
#[local] Opaque defaults.

Lemma fill_defaults_get cols df filled col :
  fill_defaults cols df = Some filled →
  Frame.get filled col =
    match Frame.get df col with
    | Some v => Some v
    | None => if decide (col ∈ cols) then defaults !! col else None
    end.
Proof.
  revert df. induction cols as [| c cols IH]; simpl; intros df Hfill.
  - inversion Hfill; subst. by destruct (Frame.get filled col).
  - destruct (Frame.contains c df) eqn:Hc.
    + rewrite (IH _ Hfill).
      destruct (Frame.get df col) eqn:Hget; [done |].
      apply contains_true in Hc. apply get_None in Hget.
      destruct (decide (col ∈ cols)) as [Hin | Hnin].
      * rewrite decide_True; [done | by apply list_elem_of_further].
      * rewrite decide_False; [done |].
        rewrite elem_of_cons. intros [-> | ?]; done.
    + destruct (defaults !! c) as [d |] eqn:Hd; [| discriminate].
      rewrite (IH _ Hfill).
      apply not_true_iff_false in Hc. rewrite contains_true in Hc.
      destruct (decide (c = col)) as [-> | Hne].
      * rewrite get_setitem_eq.
        apply get_None in Hc. rewrite Hc.
        rewrite decide_True; [done | apply list_elem_of_here].
      * rewrite get_setitem_ne by done.
        destruct (Frame.get df col); [done |].
        destruct (decide (col ∈ cols)) as [Hin | Hnin].
        -- rewrite decide_True; [done | by apply list_elem_of_further].
        -- rewrite decide_False; [done |].
           rewrite elem_of_cons. intros [-> | ?]; done.
Qed.

Lemma fill_defaults_is_Some cols df :
  (∀ c, c ∈ cols → c ∈ Frame.columns df ∨ is_Some (defaults !! c)) →
  is_Some (fill_defaults cols df).
Proof.
  revert df. induction cols as [| c cols IH]; simpl; intros df Hall; [eauto |].
  destruct (Frame.contains c df) eqn:Hc.
  - apply IH. intros c' Hc'. by apply Hall, list_elem_of_further.
  - apply not_true_iff_false in Hc. rewrite contains_true in Hc.
    destruct (Hall c) as [Hin | [d Hd]]; [apply list_elem_of_here | done |].
    rewrite Hd. apply IH. intros c' Hc'.
    destruct (Hall c') as [Hin | Hdef]; [by apply list_elem_of_further | | by right].
    left. rewrite columns_setitem_new by done.
    apply elem_of_app. by left.
Qed.

Lemma complete_row_columns df row :
  complete_row df = Some row → Frame.columns row = required_cols.
Proof.
  unfold complete_row. destruct (fill_defaults required_cols df); [| done].
  apply select_columns.
Qed.

Lemma complete_row_get df row col :
  complete_row df = Some row → col ∈ required_cols →
  Frame.get row col = overlay df col.
Proof.
  unfold complete_row, overlay.
  destruct (fill_defaults required_cols df) as [filled |] eqn:Hfill; [| done].
  intros Hsel Hin. rewrite (select_get _ _ _ _ Hsel Hin).
  rewrite (fill_defaults_get _ _ _ col Hfill). by rewrite decide_True.
Qed.

Lemma complete_row_is_Some df :
  (∀ c, c ∈ required_cols → c ∈ Frame.columns df ∨ is_Some (defaults !! c)) →
  is_Some (complete_row df).
Proof.
  intros Hall. unfold complete_row.
  destruct (fill_defaults_is_Some _ _ Hall) as [filled Hfill]. rewrite Hfill.
  apply select_is_Some. intros c Hc.
  apply get_is_Some. rewrite (fill_defaults_get _ _ _ c Hfill).
  destruct (Frame.get df c) eqn:Hget; [eauto |].
  rewrite decide_True by done.
  destruct (Hall c Hc) as [Hin | Hdef]; [| done].
  apply get_is_Some in Hin. rewrite Hget in Hin. by destruct Hin.
Qed.

(** Every schema column the form does not collect has a default. *)
Lemma defaults_cover :
  Forall (λ col, col ∈ user_cols ∨ is_Some (defaults !! col)) required_cols.
Proof.
  unfold required_cols.
  repeat (apply Forall_cons; split;
    [first [ left; by apply (bool_decide_unpack _); vm_compute
           | right; by apply (bool_decide_unpack _); vm_compute ] |]).
  apply Forall_nil_2.
Qed.

Lemma user_frame_columns u : Frame.columns (user_frame u) = user_cols.
Proof. reflexivity. Qed.

Lemma feature_row_unfold u :
  feature_row u = Some [
    ("school", CStr (school u)); ("sex", CStr (sex u)); ("age", CInt (age u));
    ("address", CStr "U"); ("famsize", CStr "GT3"); ("Pstatus", CStr "T");
    ("Medu", CInt 2); ("Fedu", CInt 2); ("Mjob", CStr "other");
    ("Fjob", CStr "other"); ("reason", CStr "course");
    ("guardian", CStr "mother"); ("traveltime", CInt 1);
    ("studytime", CInt (studytime u)); ("failures", CInt (failures u));
    ("schoolsup", CStr "no"); ("famsup", CStr "no"); ("paid", CStr "no");
    ("activities", CStr "no"); ("nursery", CStr "yes"); ("higher", CStr "yes");
    ("internet", CStr "yes"); ("romantic", CStr "no"); ("famrel", CInt 3);
    ("freetime", CInt 3); ("goout", CInt 3); ("Dalc", CInt 1);
    ("Walc", CInt 1); ("health", CInt 3); ("absences", CInt (absences u));
    ("G1", CInt 10); ("G2", CInt 10); ("G3", CInt 10)
  ].
Proof. destruct u. vm_compute. reflexivity. Qed.

Lemma feature_row_eq u : feature_row u = complete_row (user_frame u).
Proof. exact (eq_refl (complete_row (user_frame u))). Qed.

Lemma feature_row_is_Some u : is_Some (feature_row u).
Proof.
  rewrite feature_row_eq. apply complete_row_is_Some. intros c Hc.
  rewrite user_frame_columns.
  exact (proj1 (Forall_forall _ _) defaults_cover c Hc).
Qed.

(** The lookup does raise on a column without a default: a frame that
    lacked the form column [age] would not be completed. *)
Example fill_defaults_missing_default :
  fill_defaults required_cols [("school", CStr "GP"); ("sex", CStr "F")] = None.
Proof. vm_compute. reflexivity. Qed.

(** C3. Schema completeness: every column of [required_cols] that is not
    one of the six form fields has an entry in [defaults]; hence the
    default-filling loop never meets a missing key, the Feature Row is
    built for every form input, and each schema column has a cell in it. *)
Theorem schema_completeness :
  Forall (λ col, col ∉ user_cols → is_Some (defaults !! col)) required_cols ∧
  (∀ u : user_fields, is_Some (fill_defaults required_cols (user_frame u))) ∧
  (∀ u : user_fields, ∃ row,
      feature_row u = Some row ∧
      Forall (λ col, is_Some (Frame.get row col)) required_cols).
Proof.
  split; [| split].
  - eapply Forall_impl; [exact defaults_cover |].
    intros col [Hin | Hdef] Hnin; done.
  - intros u. apply fill_defaults_is_Some. intros c Hc.
    rewrite user_frame_columns.
    exact (proj1 (Forall_forall _ _) defaults_cover c Hc).
  - intros u. destruct (feature_row_is_Some u) as [row Hrow].
    exists row. split; [exact Hrow |].
    rewrite feature_row_eq in Hrow.
    apply Forall_forall. intros col Hcol.
    apply get_is_Some. by rewrite (complete_row_columns _ _ Hrow).
Qed.

(** C4. Column order: whatever the order in which the six form fields
    were put in the initial frame, default filling and reindexing give a
    Feature Row whose columns are exactly [required_cols], in that
    order. *)
Theorem column_order_invariant (input_df : DataFrame) :
  Frame.columns input_df ≡ₚ user_cols →
  ∃ row, complete_row input_df = Some row ∧
         Frame.columns row = required_cols.
Proof.
  intros Hperm.
  destruct (complete_row_is_Some input_df) as [row Hrow].
  - intros c Hc. rewrite Hperm.
    exact (proj1 (Forall_forall _ _) defaults_cover c Hc).
  - exists row. split; [exact Hrow |]. exact (complete_row_columns _ _ Hrow).
Qed.

Lemma column_order_invariant_witness :
  Frame.columns (shuffled_frame initial_fields) ≡ₚ user_cols ∧
  ∃ row, complete_row (shuffled_frame initial_fields) = Some row ∧
         Frame.columns row = required_cols.
Proof.
  assert (Hperm : Frame.columns (shuffled_frame initial_fields) ≡ₚ user_cols).
  { apply (bool_decide_unpack _). vm_compute. reflexivity. }
  split; [exact Hperm |].
  exact (column_order_invariant (shuffled_frame initial_fields) Hperm).
Defined.

(** C8. Overlay: the Feature Row of a form input holds, in each of the six
    form columns, the value the user supplied, and in every other schema
    column the value [defaults] gives it. *)
Theorem feature_row_overlay (u : user_fields) :
  ∃ row, feature_row u = Some row ∧
    Frame.get row "school" = Some (CStr (school u)) ∧
    Frame.get row "sex" = Some (CStr (sex u)) ∧
    Frame.get row "age" = Some (CInt (age u)) ∧
    Frame.get row "studytime" = Some (CInt (studytime u)) ∧
    Frame.get row "failures" = Some (CInt (failures u)) ∧
    Frame.get row "absences" = Some (CInt (absences u)) ∧
    Forall (λ col, col ∉ user_cols →
                   is_Some (defaults !! col) ∧
                   Frame.get row col = defaults !! col) required_cols.
Proof.
  destruct (feature_row_is_Some u) as [row Hrow]. exists row.
  split; [exact Hrow |]. rewrite feature_row_eq in Hrow.
  assert (Huser : ∀ col v, Frame.get (user_frame u) col = Some v →
                           col ∈ required_cols → Frame.get row col = Some v).
  { intros col v Hget Hin.
    rewrite (complete_row_get _ _ _ Hrow Hin). unfold overlay. by rewrite Hget. }
  assert (Hreq : ∀ col, bool_decide (col ∈ required_cols) = true →
                        col ∈ required_cols).
  { intros col. apply bool_decide_eq_true_1. }
  repeat (split; [apply Huser; [reflexivity | apply Hreq; vm_compute; reflexivity] |]).
  apply Forall_forall. intros col Hcol Hnin.
  pose proof (proj1 (Forall_forall _ _) defaults_cover col Hcol) as [Hin | Hdef];
    [contradiction |].
  split; [exact Hdef |].
  rewrite (complete_row_get _ _ _ Hrow Hcol). unfold overlay.
  rewrite <- user_frame_columns with (u := u) in Hnin.
  apply get_None in Hnin. by rewrite Hnin.
Qed.

(** ** The schema at training time and at inference time *)

Lemma required_cols_length : length required_cols = 33%nat.
Proof. reflexivity. Qed.

Lemma X_columns_no_target hdr X : X_columns hdr = Some X → "G3" ∉ X.
Proof.
  unfold X_columns, Frame.drop_columns.
  destruct (forallb _ _); [| discriminate].
  intros [= <-]. rewrite list_elem_of_filter. intros [Hnot _].
  apply Hnot, list_elem_of_here.
Qed.

Lemma feature_row_columns u row :
  feature_row u = Some row → Frame.columns row = required_cols.
Proof. rewrite feature_row_eq. apply complete_row_columns. Qed.

Lemma target_in_required_cols : "G3" ∈ required_cols.
Proof. apply (bool_decide_unpack _). vm_compute. reflexivity. Qed.

(** Whatever the dataset and the request, the Feature Row carries the
    target column, which the training features never do. *)
Lemma feature_row_not_training_schema hdr X u row :
  X_columns hdr = Some X → feature_row u = Some row → Frame.columns row ≠ X.
Proof.
  intros HX Hrow Heq. apply (X_columns_no_target _ _ HX).
  rewrite <- Heq, (feature_row_columns _ _ Hrow).
  exact target_in_required_cols.
Qed.

(** C1, as the code behaves.  For the request made with the initial
    widget values, the Feature Row given to [preprocess.transform] has the
    33 columns of [required_cols], the last being the target G3, while
    the training features [X] are the 32 columns without G3: the columns
    at inference time are those of training followed by G3, not the same
    columns. *)
Theorem inference_columns_include_target :
  ∃ row X,
    feature_row initial_fields = Some row ∧
    X_columns df_columns = Some X ∧
    Frame.columns row = (X ++ ["G3"])%list ∧
    Frame.columns row ≠ X ∧
    length (Frame.columns row) = 33%nat ∧
    length X = 32%nat.
Proof.
  destruct (feature_row_is_Some initial_fields) as [row Hrow].
  exists row, (filter (λ c, c ∉ ["G3"]) required_cols).
  assert (HX : X_columns df_columns =
               Some (filter (λ c, c ∉ ["G3"]) required_cols)).
  { vm_compute. reflexivity. }
  pose proof (feature_row_columns _ _ Hrow) as Hcols.
  split; [exact Hrow |]. split; [exact HX |].
  split; [rewrite Hcols; vm_compute; reflexivity |].
  split; [exact (feature_row_not_training_schema _ _ _ _ HX Hrow) |].
  split; [rewrite Hcols; reflexivity | vm_compute; reflexivity].
Qed.



(** ** Rounding and clamping *)

Lemma round_half_even_near q :
  (inject_Z (round_half_even q) - q <= 1 # 2)%Q ∧
  (q - inject_Z (round_half_even q) <= 1 # 2)%Q.
Proof.
  unfold round_half_even.
  pose proof (Qfloor_le q) as Hlo. pose proof (Qlt_floor q) as Hhi.
  rewrite inject_Z_plus in Hhi. change (inject_Z 1) with 1%Q in Hhi.
  assert (Hsucc : (inject_Z (Qfloor q + 1) == inject_Z (Qfloor q) + 1)%Q).
  { rewrite inject_Z_plus. reflexivity. }
  destruct (Qcompare_spec (q - inject_Z (Qfloor q)) (1 # 2)) as [Heq | Hlt | Hgt].
  - destruct (Z.even (Qfloor q)); [| rewrite Hsucc]; split; lra.
  - split; lra.
  - rewrite Hsucc. split; lra.
Qed.

Lemma float_lt_Fin x y : float_lt (Fin x) (Fin y) = true ↔ (x < y)%Q.
Proof.
  simpl. rewrite Qlt_alt. destruct (x ?= y)%Q; split; congruence.
Qed.

(** The three outcomes of the clamp: the rounded value when it lies
    strictly between 0 and 20, and else one of the two [int] bounds. *)
Lemma clamp_prediction_cases p :
  (clamp_prediction p = PyFloat (py_round2 p) ∧
   ∃ q, py_round2 p = Fin q ∧ (0 < q)%Q ∧ (q < 20)%Q) ∨
  clamp_prediction p = PyInt 0 ∨
  clamp_prediction p = PyInt 20.
Proof.
  unfold clamp_prediction, py_min, py_max, py_lt. cbn [to_float].
  destruct (float_lt (py_round2 p) (Fin (inject_Z 20))) eqn:H20; cbn [to_float].
  - destruct (float_lt (Fin (inject_Z 0)) (py_round2 p)) eqn:H0.
    + left. split; [reflexivity |].
      destruct (py_round2 p) as [| | | q]; try discriminate.
      exists q. apply float_lt_Fin in H20, H0. by repeat split.
    + right; left. reflexivity.
  - right; right. reflexivity.
Qed.

Lemma py_round2_two_decimals p q :
  py_round2 p = Fin q → ∃ k : Z, q = nearest_double (k # 100).
Proof.
  destruct p as [| | | q0]; unfold py_round2; try discriminate.
  intros [= <-]. eexists. reflexivity.
Qed.

Lemma clamp_prediction_in_range p : in_grade_range (clamp_prediction p).
Proof.
  destruct (clamp_prediction_cases p) as [[-> (q & -> & H0 & H20)] | [-> | ->]].
  - exists q. split; [reflexivity |]. split; by apply Qlt_le_weak.
  - exists 0%Q. split; [reflexivity |]. split; [apply Qle_refl | done].
  - exists 20%Q. split; [reflexivity |]. split; [done | apply Qle_refl].
Qed.

Lemma clamp_prediction_two_decimals p : two_decimals (clamp_prediction p).
Proof.
  destruct (clamp_prediction_cases p) as [[-> (q & Hq & _)] | [-> | ->]].
  - destruct (py_round2_two_decimals _ _ Hq) as [k Hk].
    exists q, k. rewrite Hq. split; [reflexivity |]. by rewrite Hk.
  - exists 0%Q, 0. split; [reflexivity |]. vm_compute. reflexivity.
  - exists 20%Q, 2000. split; [reflexivity |]. vm_compute. reflexivity.
Qed.

(** ** The preprocessor *)

Lemma encode_ignore_is_Some enc levels v :
  handle_unknown enc = HU_ignore → is_Some (encode enc levels v).
Proof.
  intros Hign. unfold encode. rewrite Hign.
  destruct (decide (v ∈ levels)); eauto.
Qed.

Lemma encode_error_unseen enc levels v :
  handle_unknown enc = HU_error → v ∉ levels → encode enc levels v = None.
Proof.
  intros Herr Hnin. unfold encode. rewrite Herr. by rewrite decide_False.
Qed.

Lemma encode_length enc levels v e :
  encode enc levels v = Some e → length e = length levels.
Proof.
  unfold encode. destruct (decide (v ∈ levels)).
  - intros [= <-]. unfold one_hot. apply length_map.
  - destruct (handle_unknown enc); [discriminate |].
    intros [= <-]. apply length_replicate.
Qed.

Lemma encode_cols_ignore_is_Some enc levels cols df :
  handle_unknown enc = HU_ignore →
  (∀ c, c ∈ cols → c ∈ Frame.columns df) →
  is_Some (encode_cols enc levels cols df).
Proof.
  intros Hign. induction cols as [| c cols IH]; intros Hall; simpl; [eauto |].
  destruct (proj2 (get_is_Some df c)) as [v ->].
  { apply Hall, list_elem_of_here. }
  simpl.
  destruct (encode_ignore_is_Some enc (levels c) v Hign) as [e ->].
  simpl.
  destruct IH as [r ->]; [| simpl; eauto].
  intros c' Hc'. by apply Hall, list_elem_of_further.
Qed.

Lemma passthrough_cols_is_Some cols df :
  (∀ c, c ∈ cols → ∃ z, Frame.get df c = Some (CInt z)) →
  is_Some (passthrough_cols cols df).
Proof.
  induction cols as [| c cols IH]; intros Hall; simpl; [eauto |].
  destruct (Hall c) as [z ->]; [apply list_elem_of_here |].
  simpl.
  destruct IH as [r ->]; [| simpl; eauto].
  intros c' Hc'. by apply Hall, list_elem_of_further.
Qed.

(** In a Feature Row every column the trainer does not encode holds an
    integer. *)
Lemma feature_row_numeric u row c :
  feature_row u = Some row → c ∈ required_cols → c ∉ categorical_cols →
  ∃ z, Frame.get row c = Some (CInt z).
Proof.
  rewrite feature_row_unfold. intros [= <-] Hin Hncat.
  destruct u as [sch sx ag st fl ab]. cbn [school sex age studytime failures absences].
  unfold required_cols in Hin. unfold categorical_cols in Hncat.
  repeat (apply elem_of_cons in Hin as [-> | Hin];
    [first [ by eexists; vm_compute
           | exfalso; apply Hncat; apply (bool_decide_unpack _); vm_compute; exact I ] |]).
  by apply elem_of_nil in Hin.
Qed.

(** The trainer's pipeline, fitted on columns of the Feature Schema,
    transforms every Feature Row, whatever the levels seen at fit time. *)
Lemma trained_pipeline_accepts names_in levels regressor explainer importances :
  names_in ⊆ required_cols →
  accepts_feature_rows
    (trained_pipeline names_in levels regressor explainer importances).
Proof.
  intros Hsub u row _ Hrow. simpl. unfold ct_transform.
  pose proof (feature_row_columns _ _ Hrow) as Hcols.
  destruct (encode_cols_ignore_is_Some (encoder preprocess) levels
              (encoded_cols preprocess) row eq_refl) as [e ->].
  { intros c Hc. rewrite Hcols. revert c Hc. apply Forall_forall.
    apply (bool_decide_unpack _). vm_compute. exact I. }
  simpl.
  destruct (passthrough_cols_is_Some
              (filter (λ c, c ∉ categorical_cols) names_in) row) as [r ->];
    [| simpl; eauto].
  intros c Hc. apply list_elem_of_filter in Hc as [Hncat Hin].
  apply (feature_row_numeric u); [exact Hrow | by apply Hsub | exact Hncat].
Qed.

(** C7. Unseen categories: the trainer's encoder is configured with
    [handle_unknown="ignore"], so a level that was not among those seen
    at fit time is encoded as the all-zero vector and nothing is raised. *)
Theorem unseen_category_all_zero (levels : list cell) (v : cell) :
  v ∉ levels →
  handle_unknown (encoder preprocess) = HU_ignore ∧
  encode (encoder preprocess) levels v = Some (replicate (length levels) 0%Q).
Proof.
  intros Hnin. split; [reflexivity |].
  unfold encode. by rewrite decide_False.
Qed.

Lemma unseen_category_all_zero_witness :
  (CStr "U" ∉ demo_levels "address") ∧
  handle_unknown (encoder preprocess) = HU_ignore ∧
  encode (encoder preprocess) (demo_levels "address") (CStr "U")
    = Some (replicate (length (demo_levels "address")) 0%Q).
Proof.
  assert (Hnin : CStr "U" ∉ demo_levels "address").
  { apply (bool_decide_unpack _). vm_compute. exact I. }
  split; [exact Hnin |].
  exact (unseen_category_all_zero (demo_levels "address") (CStr "U") Hnin).
Defined.

(** With the encoder's other policy the same cell would raise. *)
Example unseen_category_error_policy :
  encode {| handle_unknown := HU_error |} (demo_levels "address") (CStr "U") = None.
Proof. vm_compute. reflexivity. Qed.

(** ** The prediction *)

Lemma predict_row_in_range art row grade :
  predict_row art row = Some grade →
  in_grade_range grade ∧ two_decimals grade.
Proof.
  unfold predict_row. destruct (transform art row); [| discriminate].
  intros [= <-].
  split; [apply clamp_prediction_in_range | apply clamp_prediction_two_decimals].
Qed.

(** C2. For every valid six-field input, on a pipeline that transforms
    the Feature Rows, [predict] returns a grade that lies in [0, 20] and
    is rounded to two decimal places: the [int] 0 or 20, or the double
    nearest to a whole number of hundredths. *)
Theorem predict_in_range_two_decimals (art : artifact) (u : user_fields) :
  valid_user_fields u →
  accepts_feature_rows art →
  ∃ grade, predict art u = Some grade ∧
           in_grade_range grade ∧ two_decimals grade.
Proof.
  intros Hvalid Hacc. unfold predict.
  destruct (feature_row_is_Some u) as [row Hrow]. rewrite Hrow.
  destruct (Hacc u row Hvalid Hrow) as [x Hx].
  exists (clamp_prediction (regressor_predict art x)).
  split; [unfold predict_row; by rewrite Hx |].
  split; [apply clamp_prediction_in_range | apply clamp_prediction_two_decimals].
Qed.

Lemma initial_fields_valid : valid_user_fields initial_fields.
Proof. unfold valid_user_fields. simpl. repeat split; first [by left | lia]. Qed.

Lemma demo_pipeline_accepts : accepts_feature_rows demo_pipeline.
Proof.
  apply trained_pipeline_accepts. intros c Hc.
  apply list_elem_of_filter in Hc. tauto.
Qed.

Lemma predict_in_range_two_decimals_witness :
  valid_user_fields initial_fields ∧
  accepts_feature_rows demo_pipeline ∧
  ∃ grade, predict demo_pipeline initial_fields = Some grade ∧
           in_grade_range grade ∧ two_decimals grade.
Proof.
  split; [exact initial_fields_valid |].
  split; [exact demo_pipeline_accepts |].
  exact (predict_in_range_two_decimals demo_pipeline initial_fields
           initial_fields_valid demo_pipeline_accepts).
Defined.

(** On the demonstration pipeline the raw value, the double nearest to
    70/6, is shown as the double 11.67. *)
Example predict_demo :
  predict demo_pipeline initial_fields
  = Some (PyFloat (Fin (nearest_double (1167 # 100)))).
Proof. vm_compute. reflexivity. Qed.

(** Values the regressor could return, NaN included: 0.125 is a tie and
    goes to the even hundredth, the double 0.12 (exactly
    1080863910568919 / 2^53), 0.375 goes to the double 0.38; values
    beyond the range give the [int] bounds. *)
Example clamp_examples :
  clamp_prediction (Fin (1 # 8))
    = PyFloat (Fin (1080863910568919 # 9007199254740992)) ∧
  clamp_prediction (Fin (3 # 8)) = PyFloat (Fin (nearest_double (38 # 100))) ∧
  clamp_prediction (Fin (-3 # 1)) = PyInt 0 ∧
  clamp_prediction (Fin (1 # 1024)) = PyInt 0 ∧
  clamp_prediction (Fin (41 # 2)) = PyInt 20 ∧
  clamp_prediction NaN = PyInt 20 ∧
  clamp_prediction PInf = PyInt 20 ∧
  clamp_prediction NInf = PyInt 0.
Proof. vm_compute. repeat split. Qed.

(** ** Sorting by a key and taking the head *)

Section head_of_sorted.
Context {A : Type} (key : A → Q).

#[local] Instance key_desc_transitive : Transitive (key_desc key).
Proof. intros a b c Hab Hbc. unfold key_desc in *. by eapply Qle_trans. Qed.

#[local] Instance key_desc_total : Total (key_desc key).
Proof.
  intros a b. unfold key_desc.
  destruct (Qlt_le_dec (key a) (key b)) as [Hlt | Hle].
  - right. by apply Qlt_le_weak.
  - left. exact Hle.
Qed.

Lemma sort_values_desc_perm rows : sort_values_desc key rows ≡ₚ rows.
Proof. apply merge_sort_Permutation. Qed.

Lemma sort_values_desc_sorted rows :
  StronglySorted (key_desc key) (sort_values_desc key rows).
Proof. apply StronglySorted_merge_sort; apply _. Qed.

(** The head of the sorted frame: its length, its order, and what is
    left out. *)
Lemma head_sorted_spec n rows :
  length (head n (sort_values_desc key rows)) = min n (length rows) ∧
  StronglySorted (key_desc key) (head n (sort_values_desc key rows)) ∧
  ∃ rest, rows ≡ₚ head n (sort_values_desc key rows) ++ rest ∧
          ∀ a b, a ∈ head n (sort_values_desc key rows) → b ∈ rest →
                 (key b <= key a)%Q.
Proof.
  unfold head.
  pose proof (sort_values_desc_sorted rows) as Hsorted.
  rewrite <- (take_drop n (sort_values_desc key rows)) in Hsorted.
  split; [| split].
  - rewrite length_take. by rewrite (Permutation_length (sort_values_desc_perm rows)).
  - by apply StronglySorted_app_1_l in Hsorted.
  - exists (drop n (sort_values_desc key rows)). split.
    + rewrite take_drop. symmetry. apply sort_values_desc_perm.
    + intros a b Ha Hb.
      exact (StronglySorted_app_1_elem_of _ _ _ _ _ Hsorted Ha Hb).
Qed.

End head_of_sorted.

Lemma StronglySorted_impl_in {A} (R1 R2 : relation A) (l : list A) :
  (∀ a b, a ∈ l → b ∈ l → R1 a b → R2 a b) →
  StronglySorted R1 l → StronglySorted R2 l.
Proof.
  induction l as [| x l IH]; intros Himpl Hs; [constructor |].
  apply StronglySorted_cons in Hs as [Hx Hl].
  apply StronglySorted_cons. split.
  - apply Forall_forall. intros b Hb.
    apply Himpl; [apply list_elem_of_here | by apply list_elem_of_further |].
    exact (proj1 (Forall_forall _ _) Hx b Hb).
  - apply IH; [| exact Hl].
    intros a b Ha Hb. apply Himpl; by apply list_elem_of_further.
Qed.

Lemma with_impact_spec shap_df r :
  r ∈ with_impact shap_df →
  Impact r = Qabs (SHAP_Value r) ∧ (Feature r, SHAP_Value r) ∈ shap_df.
Proof.
  unfold with_impact. intros Hin.
  apply list_elem_of_fmap in Hin as ([f v] & -> & Hin). simpl. by split.
Qed.

Lemma top_shap_rows shap_df r :
  r ∈ top_shap shap_df → r ∈ with_impact shap_df.
Proof.
  unfold top_shap, head. intros Hin.
  rewrite <- (sort_values_desc_perm Impact (with_impact shap_df)).
  exact (subseteq_take _ _ _ Hin).
Qed.

(** C10. The local-attribution view keeps the ten rows of greatest
    absolute SHAP value, the greatest first, and leaves out only rows of
    magnitude at most that of every row kept; each bar it draws carries
    the feature name with its signed SHAP value as found in the frame. *)
Theorem top_shap_by_magnitude (shap_df : list (string * Q)) :
  length (top_shap shap_df) = min 10 (length shap_df) ∧
  StronglySorted
    (λ a b, (Qabs (SHAP_Value b) <= Qabs (SHAP_Value a))%Q) (top_shap shap_df) ∧
  (∃ rest, with_impact shap_df ≡ₚ top_shap shap_df ++ rest ∧
           ∀ a b, a ∈ top_shap shap_df → b ∈ rest →
                  (Qabs (SHAP_Value b) <= Qabs (SHAP_Value a))%Q) ∧
  Forall2 (λ bar r, bar = (Feature r, SHAP_Value r) ∧ bar ∈ shap_df)
          (barh (top_shap shap_df)) (top_shap shap_df).
Proof.
  destruct (head_sorted_spec Impact 10 (with_impact shap_df))
    as (Hlen & Hsorted & rest & Hperm & Hrest).
  fold (top_shap shap_df) in Hlen, Hsorted, Hperm, Hrest.
  assert (Himpact : ∀ r, r ∈ with_impact shap_df → Impact r = Qabs (SHAP_Value r)).
  { intros r Hr. exact (proj1 (with_impact_spec _ _ Hr)). }
  split; [| split; [| split]].
  - rewrite Hlen. unfold with_impact. by rewrite length_map.
  - apply (StronglySorted_impl_in (key_desc Impact)); [| exact Hsorted].
    intros a b Ha Hb Hab. unfold key_desc in Hab.
    rewrite <- (Himpact a) by by apply top_shap_rows.
    rewrite <- (Himpact b) by by apply top_shap_rows. exact Hab.
  - exists rest. split; [exact Hperm |].
    intros a b Ha Hb.
    rewrite <- (Himpact a) by by apply top_shap_rows.
    rewrite <- (Himpact b); [by apply Hrest |].
    rewrite Hperm. apply elem_of_app. by right.
  - unfold barh. apply Forall2_fmap_l, Forall_Forall2_diag.
    apply Forall_forall. intros r Hr. split; [reflexivity |].
    exact (proj2 (with_impact_spec _ _ (top_shap_rows _ _ Hr))).
Qed.

(** On twelve attributions the two of least magnitude are left out, not
    the most negative ones, and the bars keep their signs. *)
Example top_shap_demo :
  barh (top_shap demo_shap_df) = [
    ("f12", 10 # 1); ("f2", -9 # 1); ("f9", -8 # 1); ("f5", 7 # 1);
    ("f6", -6 # 1); ("f8", 4 # 1); ("f3", 3 # 1); ("f11", -2 # 1);
    ("f10", 1 # 1); ("f1", 5 # 10)
  ]%Q.
Proof. vm_compute. reflexivity. Qed.

(** ** The script and the session *)

(* The Feature Row is looked at through its lemmas from here on. *)
#[local] Opaque feature_row.

Lemma run_prediction_unfold art u w :
  run_prediction art u w =
    match feature_row u with
    | None => (None, w)
    | Some row =>
        match transform art row with
        | None => (None, w)
        | Some X_trans =>
            let prediction := clamp_prediction (regressor_predict art X_trans) in
            (Some prediction,
             {| session := <["prediction" := ObjNum prediction]>
                             (<["input_df" := ObjFrame row]> (session w));
                lookups := lookups w |})
        end
    end.
Proof.
  unfold run_prediction, mbind, script_bind, Script.bind, Script.lift.
  destruct (feature_row u) as [row |]; [| reflexivity].
  destruct (transform art row) as [x |]; reflexivity.
Qed.

Lemma run_prediction_result art u ss :
  result_of (run_prediction art u) ss = predict art u.
Proof.
  unfold result_of, predict, predict_row. rewrite run_prediction_unfold.
  destruct (feature_row u) as [row |]; [| reflexivity].
  destruct (transform art row); reflexivity.
Qed.

(** C6. Determinism: two prediction requests on the same loaded pipeline
    whose Feature Rows are the same return the same value, whatever the
    session holds when each is made. *)
Theorem predict_deterministic (art : artifact) (u1 u2 : user_fields)
    (ss1 ss2 : gmap string pyobj) :
  feature_row u1 = feature_row u2 →
  result_of (run_prediction art u1) ss1 = result_of (run_prediction art u2) ss2.
Proof.
  intros Hrow. rewrite !run_prediction_result. unfold predict. by rewrite Hrow.
Qed.

(** The views change nothing in the session. *)
Lemma tab1_unfold art w :
  tab1 art w =
    ((o ← session w !! "input_df"; x ← transform_obj art o;
      d ← frame2 (get_feature_names_out art) (shap_values art x);
      Some (barh (top_shap d))),
     {| session := session w; lookups := (lookups w ++ ["input_df"])%list |}).
Proof.
  unfold tab1, mbind at 1 2 3, script_bind, Script.bind, Script.get, Script.lift, Script.ret.
  destruct (session w !! "input_df") as [o |]; [| reflexivity]. simpl.
  destruct (transform_obj art o) as [x |]; [| reflexivity]. simpl.
  destruct (frame2 _ _); reflexivity.
Qed.

Lemma tab2_unfold art w : tab2 art w = (explain_global art, w).
Proof.
  unfold tab2, explain_global, mbind at 1, script_bind, Script.bind, Script.lift, Script.ret.
  destruct (frame2 _ _); reflexivity.
Qed.

(** What a run leaves in the session is what its prediction step, if
    any, left there. *)
Lemma script_session art u predict_btn w :
  session (script art u predict_btn w).2 =
    if predict_btn then session (run_prediction art u w).2 else session w.
Proof.
  assert (Hviews : ∀ shown w1,
    session ((has ← Script.contains "prediction";
              if has : bool then
                t1 ← tab1 art;
                t2 ← tab2 art;
                Script.ret {| success := shown; tabs := Some (t1, t2) |}
              else Script.ret {| success := shown; tabs := None |}) w1).2
    = session w1).
  { intros shown w1.
    unfold mbind, script_bind, Script.bind, Script.ret, Script.contains.
    cbn [session lookups fst snd].
    destruct (bool_decide (is_Some (session w1 !! "prediction"))); [| reflexivity].
    rewrite tab1_unfold. cbn [session lookups].
    destruct (_ : option (list (string * Q))); [| reflexivity].
    rewrite tab2_unfold. destruct (explain_global art); reflexivity. }
  unfold script. unfold mbind at 1, script_bind at 1, Script.bind at 1.
  destruct predict_btn.
  - unfold mbind at 1, script_bind at 1, Script.bind at 1.
    destruct (run_prediction art u w) as [[p |] w1]; [| reflexivity].
    unfold Script.ret at 1. apply Hviews.
  - unfold Script.ret at 1. apply Hviews.
Qed.

Lemma session_after_step art ss i :
  session_after art ss i =
    match request_of art i with
    | Some (row, prediction) =>
        <["prediction" := ObjNum prediction]> (<["input_df" := ObjFrame row]> ss)
    | None => ss
    end.
Proof.
  destruct i as [u btn]. unfold session_after, request_of. cbn [fst snd].
  rewrite script_session. destruct btn; [| reflexivity].
  rewrite run_prediction_unfold. unfold predict_row.
  destruct (feature_row u) as [row |]; [| reflexivity]. simpl.
  destruct (transform art row); reflexivity.
Qed.

(** A request replaces what the session retained. *)
Lemma session_of_overwrite r row prediction :
  <["prediction" := ObjNum prediction]>
    (<["input_df" := ObjFrame row]> (session_of r))
  = session_of (Some (row, prediction)).
Proof.
  destruct r as [[row0 p0] |]; simpl; [| reflexivity].
  apply map_eq. intros k.
  destruct (decide (k = "prediction")) as [-> | Hp].
  { by rewrite !lookup_insert_eq. }
  rewrite !(lookup_insert_ne _ "prediction") by done.
  destruct (decide (k = "input_df")) as [-> | Hi].
  { by rewrite !lookup_insert_eq. }
  rewrite !(lookup_insert_ne _ "input_df") by done.
  rewrite !(lookup_insert_ne _ "prediction") by done.
  by rewrite !(lookup_insert_ne _ "input_df") by done.
Qed.

Lemma session_after_all_from art r runs :
  session_after_all art (session_of r) runs =
    session_of
      (foldl (λ acc i, match request_of art i with Some r' => Some r' | None => acc end)
             r runs).
Proof.
  revert r. induction runs as [| i runs IH]; intros r; [reflexivity |].
  unfold session_after_all in *. simpl. rewrite session_after_step.
  destruct (request_of art i) as [[row p] |]; [| apply IH].
  rewrite session_of_overwrite. apply IH.
Qed.

Lemma lookups_of_tab1 art ss : lookups_of (tab1 art) ss = ["input_df"].
Proof. unfold lookups_of. by rewrite tab1_unfold. Qed.

Lemma lookups_of_tab2 art ss : lookups_of (tab2 art) ss = [].
Proof. unfold lookups_of. by rewrite tab2_unfold. Qed.

Lemma result_of_tab1_retained art row prediction :
  result_of (tab1 art) (session_of (Some (row, prediction))) = explain_local art row.
Proof.
  unfold result_of. rewrite tab1_unfold. cbn [fst session session_of].
  rewrite lookup_insert_ne by done. rewrite lookup_insert_eq. reflexivity.
Qed.

Lemma result_of_tab2 art ss : result_of (tab2 art) ss = explain_global art.
Proof. unfold result_of. by rewrite tab2_unfold. Qed.

Lemma predict_deterministic_witness :
  feature_row initial_fields = feature_row initial_fields ∧
  result_of (run_prediction demo_pipeline initial_fields) ∅ =
  result_of (run_prediction demo_pipeline initial_fields)
            (session_after demo_pipeline ∅ (initial_fields, true)).
Proof.
  split; [reflexivity |].
  exact (predict_deterministic demo_pipeline initial_fields initial_fields ∅
           (session_after demo_pipeline ∅ (initial_fields, true)) eq_refl).
Defined.

Lemma request_of_spec art i row prediction :
  request_of art i = Some (row, prediction) →
  i.2 = true ∧ feature_row i.1 = Some row ∧
  ∃ X_trans, transform art row = Some X_trans ∧
             prediction = clamp_prediction (regressor_predict art X_trans).
Proof.
  unfold request_of, predict_row. destruct i as [u btn]. cbn [fst snd].
  destruct btn; [| discriminate].
  destruct (feature_row u) as [row' |]; [| discriminate]. simpl.
  destruct (transform art row') as [x |] eqn:Hx; [| discriminate]. simpl.
  intros [= <- <-].
  split; [reflexivity |]. split; [reflexivity |].
  exists x. split; [exact Hx | reflexivity].
Qed.

Lemma last_request_snoc art runs i :
  last_request art (runs ++ [i]) =
    match request_of art i with
    | Some r => Some r
    | None => last_request art runs
    end.
Proof. unfold last_request. by rewrite foldl_snoc. Qed.

(** C9, as stated, fails: on the session left by a prediction, the
    global-importance view looks nothing up in the session; only the
    local-attribution view reads the retained Feature Row. *)
Lemma views_read_retained_row_fails :
  ¬ ("input_df" ∈ lookups_of (tab1 demo_pipeline)
                    (session_after demo_pipeline ∅ (initial_fields, true)) ∧
     "input_df" ∈ lookups_of (tab2 demo_pipeline)
                    (session_after demo_pipeline ∅ (initial_fields, true))).
Proof.
  intros [_ Hread]. rewrite lookups_of_tab2 in Hread.
  by apply elem_of_nil in Hread.
Qed.

(** C9, amended.  After any series of runs of the script from a fresh
    session, the session retains nothing if no request succeeded, and
    otherwise exactly the Feature Row of the most recent request with its
    clamped prediction: a further request replaces both.  The
    local-attribution view reads the retained Feature Row and draws its
    attributions; the global-importance view looks nothing up in the
    session and draws the importances of the pipeline. *)
Theorem session_retains_latest_request (art : artifact)
    (runs : list (user_fields * bool)) :
  session_after_all art ∅ runs = session_of (last_request art runs) ∧
  (∀ i row prediction,
     request_of art i = Some (row, prediction) →
     session_after_all art ∅ (runs ++ [i]) = session_of (Some (row, prediction)) ∧
     feature_row i.1 = Some row ∧
     predict_row art row = Some prediction) ∧
  (∀ i, request_of art i = None →
        session_after_all art ∅ (runs ++ [i]) = session_after_all art ∅ runs) ∧
  (∀ ss, lookups_of (tab1 art) ss = ["input_df"] ∧ lookups_of (tab2 art) ss = []) ∧
  (∀ row prediction,
     result_of (tab1 art) (session_of (Some (row, prediction)))
     = explain_local art row) ∧
  (∀ ss, result_of (tab2 art) ss = explain_global art).
Proof.
  assert (Hall : ∀ rs, session_after_all art ∅ rs = session_of (last_request art rs)).
  { intros rs. exact (session_after_all_from art None rs). }
  split; [apply Hall |].
  split; [| split; [| split; [| split]]].
  - intros i row p Hreq.
    rewrite Hall, last_request_snoc, Hreq. split; [reflexivity |].
    destruct (request_of_spec _ _ _ _ Hreq) as (_ & Hrow & x & Hx & ->).
    split; [exact Hrow |]. unfold predict_row. by rewrite Hx.
  - intros i Hreq. by rewrite !Hall, last_request_snoc, Hreq.
  - intros ss. split; [apply lookups_of_tab1 | apply lookups_of_tab2].
  - apply result_of_tab1_retained.
  - apply result_of_tab2.
Qed.

(** Two requests in one session: the second replaces the first, and a run
    without a request keeps what is retained. *)
Example session_demo :
  session_after_all demo_pipeline ∅
    [(initial_fields, true);
     ({| school := "MS"; sex := "M"; age := 19; studytime := 1;
         failures := 2; absences := 30 |}, true);
     (initial_fields, false)]
  = session_of (request_of demo_pipeline
      ({| school := "MS"; sex := "M"; age := 19; studytime := 1;
          failures := 2; absences := 30 |}, true)).
Proof. vm_compute. reflexivity. Qed.

(** * Further properties *)

(** ** What a run of the script shows *)

Lemma script_eq art u predict_btn :
  script art u predict_btn =
    (shown ← (if predict_btn
              then (p ← run_prediction art u; Script.ret (Some p))
              else Script.ret None);
     render_tabs art shown).
Proof. reflexivity. Qed.

(** The tabs on any session: drawn when a prediction is retained, the
    first from the retained frame, the second from the pipeline alone. *)
Lemma render_tabs_unfold art shown w :
  render_tabs art shown w =
    if bool_decide (is_Some (session w !! "prediction")) then
      ((t1 ← (o ← session w !! "input_df"; x ← transform_obj art o;
              d ← frame2 (get_feature_names_out art) (shap_values art x);
              Some (barh (top_shap d)));
        t2 ← explain_global art;
        Some {| success := shown; tabs := Some (t1, t2) |}),
       {| session := session w;
          lookups := (lookups w ++ ["prediction"] ++ ["input_df"])%list |})
    else
      (Some {| success := shown; tabs := None |},
       {| session := session w; lookups := (lookups w ++ ["prediction"])%list |}).
Proof.
  unfold render_tabs.
  unfold mbind at 1, script_bind at 1, Script.bind at 1, Script.contains.
  destruct (bool_decide (is_Some (session w !! "prediction"))); [| reflexivity].
  unfold mbind at 1, script_bind at 1, Script.bind at 1.
  rewrite tab1_unfold. cbn [session lookups].
  rewrite <- (assoc_L (++)).
  destruct (_ : option (list (string * Q))) as [t1 |]; [| reflexivity].
  unfold mbind at 1, script_bind at 1, Script.bind at 1.
  rewrite tab2_unfold.
  destruct (explain_global art) as [t2 |]; reflexivity.
Qed.

Lemma session_of_lookup_prediction r :
  session_of r !! "prediction" = (λ rp, ObjNum rp.2) <$> r.
Proof.
  destruct r as [[row p] |]; simpl; [| apply lookup_empty].
  apply lookup_insert_eq.
Qed.

Lemma session_of_lookup_input_df r :
  session_of r !! "input_df" = (λ rp, ObjFrame rp.1) <$> r.
Proof.
  destruct r as [[row p] |]; simpl; [| apply lookup_empty].
  rewrite lookup_insert_ne by done. apply lookup_insert_eq.
Qed.

Lemma script_no_button art u w :
  script art u false w = render_tabs art None w.
Proof. reflexivity. Qed.

Lemma script_button art u w :
  script art u true w =
    match run_prediction art u w with
    | (Some p, w1) => render_tabs art (Some p) w1
    | (None, w1) => (None, w1)
    end.
Proof.
  rewrite script_eq.
  unfold mbind at 1, script_bind at 1, Script.bind at 1.
  unfold mbind at 1, script_bind at 1, Script.bind at 1.
  destruct (run_prediction art u w) as [[p |] w1]; reflexivity.
Qed.

(** A run in which the button is not pressed, on a session that retains
    nothing or one request: it shows no grade; without a retained request
    it shows no tab; with one, the local view is that of the retained
    Feature Row, whatever the widgets hold now and whatever value is
    stored as the prediction; the session is left as it was. *)
Theorem run_without_request (art : artifact) (u : user_fields)
    (r : option (DataFrame * pynum)) :
  result_of (script art u false) (session_of r) =
    match r with
    | None => Some {| success := None; tabs := None |}
    | Some (row, _) =>
        t1 ← explain_local art row;
        t2 ← explain_global art;
        Some {| success := None; tabs := Some (t1, t2) |}
    end ∧
  lookups_of (script art u false) (session_of r) =
    match r with
    | None => ["prediction"]
    | Some _ => ["prediction"; "input_df"]
    end ∧
  session_after art (session_of r) (u, false) = session_of r.
Proof.
  unfold result_of, lookups_of, session_after. cbn [fst snd].
  rewrite script_no_button, render_tabs_unfold. cbn [session lookups].
  rewrite session_of_lookup_prediction, session_of_lookup_input_df.
  destruct r as [[row p] |]; simpl; repeat split; reflexivity.
Qed.

(** A run in which the button is pressed and the pipeline transforms the
    Feature Row, on any session: the grade shown is the clamped
    prediction of that row, the tabs are drawn in the same run and the
    local view is that of the same row, not of what was retained before;
    row and grade are stored even when drawing a tab raises. *)
Theorem run_with_request (art : artifact) (u : user_fields)
    (ss : gmap string pyobj) (row : DataFrame) (X_trans : list Q) :
  feature_row u = Some row →
  transform art row = Some X_trans →
  result_of (script art u true) ss =
    (t1 ← explain_local art row;
     t2 ← explain_global art;
     Some {| success := Some (clamp_prediction (regressor_predict art X_trans));
             tabs := Some (t1, t2) |}) ∧
  session_after art ss (u, true) =
    <["prediction" := ObjNum (clamp_prediction (regressor_predict art X_trans))]>
      (<["input_df" := ObjFrame row]> ss).
Proof.
  intros Hrow Hx.
  unfold result_of, session_after. cbn [fst snd].
  rewrite script_button, run_prediction_unfold, Hrow, Hx. cbv beta iota zeta.
  rewrite render_tabs_unfold. cbn [session lookups].
  rewrite lookup_insert_eq.
  rewrite bool_decide_eq_true_2 by eauto.
  rewrite lookup_insert_ne by done. rewrite lookup_insert_eq.
  split; [| reflexivity].
  cbn [fst]. unfold explain_local. simpl. by rewrite Hx.
Qed.

Lemma run_with_request_witness :
  ∃ row X_trans,
    feature_row initial_fields = Some row ∧
    transform demo_pipeline row = Some X_trans ∧
    result_of (script demo_pipeline initial_fields true) ∅ =
      (t1 ← explain_local demo_pipeline row;
       t2 ← explain_global demo_pipeline;
       Some {| success := Some (clamp_prediction
                                  (regressor_predict demo_pipeline X_trans));
               tabs := Some (t1, t2) |}) ∧
    session_after demo_pipeline ∅ (initial_fields, true) =
      <["prediction" := ObjNum (clamp_prediction
                                  (regressor_predict demo_pipeline X_trans))]>
        (<["input_df" := ObjFrame row]> ∅).
Proof.
  destruct (feature_row_is_Some initial_fields) as [row Hrow].
  destruct (demo_pipeline_accepts initial_fields row initial_fields_valid Hrow)
    as [x Hx].
  exists row, x. split; [exact Hrow |]. split; [exact Hx |].
  exact (run_with_request demo_pipeline initial_fields ∅ row x Hrow Hx).
Defined.

(** A run in which the button is pressed and the prediction raises, on any
    session: the run stops there, nothing is shown, not even the tabs of
    an earlier request, the session is not looked at and keeps what it
    held. *)
Theorem run_with_rejected_request (art : artifact) (u : user_fields)
    (ss : gmap string pyobj) :
  predict art u = None →
  result_of (script art u true) ss = None ∧
  lookups_of (script art u true) ss = [] ∧
  session_after art ss (u, true) = ss.
Proof.
  intros Hnone.
  unfold result_of, lookups_of, session_after. cbn [fst snd].
  rewrite script_button, run_prediction_unfold.
  unfold predict, predict_row in Hnone.
  destruct (feature_row u) as [row |]; [| by repeat split].
  destruct (transform art row); [discriminate | by repeat split].
Qed.

Lemma run_with_rejected_request_witness :
  predict rejecting_pipeline initial_fields = None ∧
  result_of (script rejecting_pipeline initial_fields true)
            (session_of (request_of demo_pipeline (initial_fields, true))) = None ∧
  lookups_of (script rejecting_pipeline initial_fields true)
             (session_of (request_of demo_pipeline (initial_fields, true))) = [] ∧
  session_after rejecting_pipeline
    (session_of (request_of demo_pipeline (initial_fields, true)))
    (initial_fields, true)
  = session_of (request_of demo_pipeline (initial_fields, true)).
Proof.
  assert (Hnone : predict rejecting_pipeline initial_fields = None).
  { vm_compute. reflexivity. }
  split; [exact Hnone |].
  exact (run_with_rejected_request rejecting_pipeline initial_fields
           (session_of (request_of demo_pipeline (initial_fields, true))) Hnone).
Defined.

Lemma last_request_from art runs r :
  last_request art runs = Some r → ∃ i, i ∈ runs ∧ request_of art i = Some r.
Proof.
  induction runs as [| i runs IH] using rev_ind; [discriminate |].
  rewrite last_request_snoc.
  destruct (request_of art i) as [r' |] eqn:Hreq.
  - intros [= <-]. exists i. split; [| exact Hreq].
    apply elem_of_app. right. apply list_elem_of_here.
  - intros Hlast. destruct (IH Hlast) as (j & Hj & Hreqj).
    exists j. split; [| exact Hreqj]. apply elem_of_app. by left.
Qed.

(** Whatever runs were made from a fresh session, the session holds both
    keys or neither; when it holds them, the frame is a Feature Row of
    the schema that the pipeline transforms and the number is the clamped
    prediction of that very row: the lookup and the transform of the
    local view cannot raise. *)
Theorem reachable_session_consistent (art : artifact)
    (runs : list (user_fields * bool)) :
  (session_after_all art ∅ runs !! "prediction" = None ∧
   session_after_all art ∅ runs !! "input_df" = None) ∨
  (∃ row X_trans,
     session_after_all art ∅ runs !! "input_df" = Some (ObjFrame row) ∧
     Frame.columns row = required_cols ∧
     transform art row = Some X_trans ∧
     session_after_all art ∅ runs !! "prediction"
       = Some (ObjNum (clamp_prediction (regressor_predict art X_trans)))).
Proof.
  pose proof (session_after_all_from art None runs) as Hall.
  change (session_of None) with (∅ : gmap string pyobj) in Hall.
  fold (last_request art runs) in Hall. rewrite Hall.
  rewrite session_of_lookup_prediction, session_of_lookup_input_df.
  destruct (last_request art runs) as [[row p] |] eqn:Hlast; [right | by left].
  destruct (last_request_from _ _ _ Hlast) as (i & _ & Hreq).
  destruct (request_of_spec _ _ _ _ Hreq) as (_ & Hrow & x & Hx & ->).
  exists row, x. simpl. repeat split; [| exact Hx].
  exact (feature_row_columns _ _ Hrow).
Qed.

(** ** The conversion to a double *)

Lemma round_half_even_mono p q :
  (p <= q)%Q → round_half_even p ≤ round_half_even q.
Proof.
  intros Hpq. unfold round_half_even.
  pose proof (Qfloor_resp_le _ _ Hpq) as Hfloor.
  pose proof (Qfloor_le p) as Hp. pose proof (Qfloor_le q) as Hq.
  pose proof (Qlt_floor q) as Hq'.
  destruct (Z.eq_dec (Qfloor p) (Qfloor q)) as [Heq | Hne].
  - rewrite <- Heq in *.
    destruct (Qcompare_spec (p - inject_Z (Qfloor p)) (1 # 2)) as [Ha | Ha | Ha];
    destruct (Qcompare_spec (q - inject_Z (Qfloor p)) (1 # 2)) as [Hb | Hb | Hb];
      try lia; try (destruct (Z.even (Qfloor p)); lia); exfalso; lra.
  - assert (Hlt : Qfloor p + 1 ≤ Qfloor q) by lia.
    destruct (Qcompare_spec (p - inject_Z (Qfloor p)) (1 # 2)) as [Ha | Ha | Ha];
    destruct (Qcompare_spec (q - inject_Z (Qfloor q)) (1 # 2)) as [Hb | Hb | Hb];
      repeat match goal with |- context [Z.even ?z] => destruct (Z.even z) end; lia.
Qed.

(** The only integer strictly within a half of [x]. *)
Lemma round_half_even_unique z x :
  (x - inject_Z z < 1 # 2)%Q → (inject_Z z - x < 1 # 2)%Q →
  round_half_even x = z.
Proof.
  intros Hx1 Hx2. destruct (round_half_even_near x) as [H1 H2].
  set (r := round_half_even x) in *.
  destruct (Z.lt_trichotomy r z) as [Hlt | [Heq | Hgt]]; [| exact Heq |]; exfalso.
  - assert (H : (inject_Z r + 1 <= inject_Z z)%Q).
    { change 1%Q with (inject_Z 1). rewrite <- inject_Z_plus, <- Zle_Qle. lia. }
    lra.
  - assert (H : (inject_Z z + 1 <= inject_Z r)%Q).
    { change 1%Q with (inject_Z 1). rewrite <- inject_Z_plus, <- Zle_Qle. lia. }
    lra.
Qed.

Lemma round_half_even_Z z x : (x == inject_Z z)%Q → round_half_even x = z.
Proof. intros Hx. apply round_half_even_unique; rewrite Hx; lra. Qed.

Lemma pow2_pos z : (0 < 2 ^ z)%Q.
Proof. apply Qpower_0_lt. reflexivity. Qed.

Lemma pow2_add a b : (2 ^ (a + b) == 2 ^ a * 2 ^ b)%Q.
Proof. apply Qpower_plus. discriminate. Qed.

Lemma pow2_le a b : a ≤ b → (2 ^ a <= 2 ^ b)%Q.
Proof. intros H. apply Qpower_le_compat_l; [exact H | discriminate]. Qed.

Lemma pow2_inject n : 0 ≤ n → (inject_Z (2 ^ n) == 2 ^ n)%Q.
Proof. intros H. exact (Zpower_Qpower 2 n H). Qed.

Lemma Q_num_den v : (v * inject_Z (Zpos (Qden v)) == inject_Z (Qnum v))%Q.
Proof. destruct v as [n d]. unfold Qeq, Qmult, inject_Z. simpl. lia. Qed.

Lemma ilog2_rough v :
  (0 < v)%Q →
  (2 ^ (Z.log2 (Qnum v) - Z.log2 (Zpos (Qden v)) - 1) < v)%Q ∧
  (v < 2 ^ (Z.log2 (Qnum v) - Z.log2 (Zpos (Qden v)) + 1))%Q.
Proof.
  intros Hv.
  set (n := Qnum v) in *. set (d := Zpos (Qden v)) in *.
  assert (Hn : 0 < n). { destruct v as [n' d']. unfold Qlt in Hv. simpl in *. lia. }
  assert (Hd : 0 < d) by (unfold d; lia).
  destruct (Z.log2_spec n Hn) as [Hn1 Hn2].
  destruct (Z.log2_spec d Hd) as [Hd1 Hd2].
  set (ln := Z.log2 n) in *. set (ld := Z.log2 d) in *.
  assert (Hln : 0 ≤ ln) by apply Z.log2_nonneg.
  assert (Hld : 0 ≤ ld) by apply Z.log2_nonneg.
  pose proof (Q_num_den v) as Hnd. fold n d in Hnd.
  rewrite Zle_Qle in Hn1, Hd1. rewrite Zlt_Qlt in Hn2, Hd2.
  rewrite pow2_inject in Hn1, Hd1 by lia.
  replace (Z.succ ln) with (ln + 1) in Hn2 by lia.
  replace (Z.succ ld) with (ld + 1) in Hd2 by lia.
  rewrite pow2_inject in Hn2, Hd2 by lia.
  assert (HdQ : (0 < inject_Z d)%Q).
  { change 0%Q with (inject_Z 0). rewrite <- Zlt_Qlt. lia. }
  split.
  - apply (Qmult_lt_r _ _ (inject_Z d) HdQ). rewrite Hnd.
    apply Qlt_le_trans with (2 ^ (ln - ld - 1) * 2 ^ (ld + 1))%Q.
    + apply Qmult_lt_l; [apply pow2_pos | exact Hd2].
    + rewrite <- pow2_add. replace (ln - ld - 1 + (ld + 1)) with ln by lia.
      exact Hn1.
  - apply (Qmult_lt_r _ _ (inject_Z d) HdQ). rewrite Hnd.
    apply Qlt_le_trans with (2 ^ (ln + 1))%Q; [exact Hn2 |].
    replace (ln + 1) with (ln - ld + 1 + ld) by lia. rewrite pow2_add.
    apply Qmult_le_l; [apply pow2_pos | exact Hd1].
Qed.

Lemma ilog2_spec v :
  (0 < v)%Q → (2 ^ ilog2 v <= v)%Q ∧ (v < 2 ^ (ilog2 v + 1))%Q.
Proof.
  intros Hv. destruct (ilog2_rough v Hv) as [Hlo Hhi]. unfold ilog2.
  set (c := Z.log2 (Qnum v) - Z.log2 (Zpos (Qden v))) in *.
  destruct (Qle_bool (2 ^ c) v) eqn:Hb.
  - apply Qle_bool_iff in Hb. split; assumption.
  - split; [apply Qlt_le_weak; exact Hlo |].
    replace (c - 1 + 1) with c by lia.
    apply Qnot_le_lt. intros Hle. apply Qle_bool_iff in Hle. congruence.
Qed.

Lemma ilog2_mono v w : (0 < v)%Q → (v <= w)%Q → ilog2 v ≤ ilog2 w.
Proof.
  intros Hv Hvw.
  assert (Hw : (0 < w)%Q) by lra.
  destruct (ilog2_spec v Hv) as [Hv1 Hv2]. destruct (ilog2_spec w Hw) as [Hw1 Hw2].
  destruct (Z_le_gt_dec (ilog2 v) (ilog2 w)) as [Hle | Hgt]; [exact Hle | exfalso].
  assert (H : (2 ^ (ilog2 w + 1) <= 2 ^ ilog2 v)%Q) by (apply pow2_le; lia).
  lra.
Qed.

Lemma ilog2_below v n : (0 < v)%Q → (v < 2 ^ n)%Q → ilog2 v < n.
Proof.
  intros Hv Hn. destruct (ilog2_spec v Hv) as [H1 _].
  apply (Qpower_lt_compat_l_inv 2); [lra | reflexivity].
Qed.

(** The scaled value lies between 2^52 and 2^53. *)
Lemma scaled_bounds v :
  (0 < v)%Q →
  (inject_Z (2 ^ 52) <= v / 2 ^ (ilog2 v - 52))%Q ∧
  (v / 2 ^ (ilog2 v - 52) <= inject_Z (2 ^ 53))%Q.
Proof.
  intros Hv. destruct (ilog2_spec v Hv) as [H1 H2].
  set (E := ilog2 v) in *.
  pose proof (pow2_pos (E - 52)) as Hu.
  assert (HE : (2 ^ E == 2 ^ 52 * 2 ^ (E - 52))%Q).
  { rewrite <- pow2_add. replace (52 + (E - 52)) with E by lia. reflexivity. }
  assert (HE1 : (2 ^ (E + 1) == 2 ^ 53 * 2 ^ (E - 52))%Q).
  { rewrite <- pow2_add. replace (53 + (E - 52)) with (E + 1) by lia. reflexivity. }
  rewrite !pow2_inject by lia.
  split.
  - apply Qle_shift_div_l; [exact Hu |]. rewrite <- HE. exact H1.
  - apply Qle_shift_div_r; [exact Hu |]. rewrite <- HE1. apply Qlt_le_weak, H2.
Qed.

Lemma mantissa_bounds v :
  (0 < v)%Q →
  2 ^ 52 ≤ round_half_even (v / 2 ^ (ilog2 v - 52)) ≤ 2 ^ 53.
Proof.
  intros Hv. destruct (scaled_bounds v Hv) as [H1 H2].
  apply round_half_even_mono in H1, H2.
  rewrite (round_half_even_Z (2 ^ 52) (inject_Z (2 ^ 52))) in H1 by reflexivity.
  rewrite (round_half_even_Z (2 ^ 53) (inject_Z (2 ^ 53))) in H2 by reflexivity.
  split; assumption.
Qed.

Lemma nearest_double_pos_bounds v :
  (0 < v)%Q →
  (2 ^ ilog2 v <= nearest_double_pos v)%Q ∧
  (nearest_double_pos v <= 2 ^ (ilog2 v + 1))%Q.
Proof.
  intros Hv. destruct (mantissa_bounds v Hv) as [H1 H2].
  unfold nearest_double_pos. cbv zeta.
  set (E := ilog2 v) in *. set (m := round_half_even _) in *.
  pose proof (pow2_pos (E - 52)) as Hu.
  assert (HE : (2 ^ E == 2 ^ 52 * 2 ^ (E - 52))%Q).
  { rewrite <- pow2_add. replace (52 + (E - 52)) with E by lia. reflexivity. }
  assert (HE1 : (2 ^ (E + 1) == 2 ^ 53 * 2 ^ (E - 52))%Q).
  { rewrite <- pow2_add. replace (53 + (E - 52)) with (E + 1) by lia. reflexivity. }
  rewrite HE, HE1. rewrite <- (pow2_inject 52), <- (pow2_inject 53) by lia.
  split; (apply Qmult_le_compat_r;
          [rewrite <- Zle_Qle; assumption | apply Qlt_le_weak, Hu]).
Qed.

Lemma nearest_double_pos_positive v : (0 < v)%Q → (0 < nearest_double_pos v)%Q.
Proof.
  intros Hv. destruct (nearest_double_pos_bounds v Hv) as [H _].
  pose proof (pow2_pos (ilog2 v)). lra.
Qed.

Lemma nearest_double_pos_mono v w :
  (0 < v)%Q → (v <= w)%Q → (nearest_double_pos v <= nearest_double_pos w)%Q.
Proof.
  intros Hv Hvw. assert (Hw : (0 < w)%Q) by lra.
  pose proof (ilog2_mono v w Hv Hvw) as HE.
  destruct (Z.eq_dec (ilog2 v) (ilog2 w)) as [Heq | Hne].
  - unfold nearest_double_pos. cbv zeta. rewrite Heq.
    pose proof (pow2_pos (ilog2 w - 52)) as Hu.
    apply Qmult_le_compat_r; [| apply Qlt_le_weak, Hu].
    rewrite <- Zle_Qle. apply round_half_even_mono.
    apply Qmult_le_compat_r; [exact Hvw |].
    apply Qlt_le_weak, Qinv_lt_0_compat, Hu.
  - destruct (nearest_double_pos_bounds v Hv) as [_ Hv2].
    destruct (nearest_double_pos_bounds w Hw) as [Hw1 _].
    assert (H : (2 ^ (ilog2 v + 1) <= 2 ^ ilog2 w)%Q) by (apply pow2_le; lia).
    lra.
Qed.

(** The conversion keeps the order. *)
Lemma nearest_double_mono v w :
  (v <= w)%Q → (nearest_double v <= nearest_double w)%Q.
Proof.
  intros Hvw. unfold nearest_double. rewrite !Qred_correct.
  destruct (Qcompare_spec v 0) as [Hv | Hv | Hv];
  destruct (Qcompare_spec w 0) as [Hw | Hw | Hw]; try (exfalso; lra).
  - lra.
  - apply Qlt_le_weak, nearest_double_pos_positive, Hw.
  - pose proof (nearest_double_pos_positive (- v)). lra.
  - apply Qopp_le_compat. apply nearest_double_pos_mono; lra.
  - pose proof (nearest_double_pos_positive (- v)).
    pose proof (nearest_double_pos_positive w). lra.
  - apply nearest_double_pos_mono; lra.
Qed.

(** The conversion is within half a unit in the last place. *)
Lemma nearest_double_pos_near v :
  (0 < v)%Q →
  (nearest_double_pos v - v <= 2 ^ (ilog2 v - 53))%Q ∧
  (v - nearest_double_pos v <= 2 ^ (ilog2 v - 53))%Q.
Proof.
  intros Hv. unfold nearest_double_pos. cbv zeta.
  set (u := ilog2 v - 52).
  pose proof (pow2_pos u) as Hu.
  destruct (round_half_even_near (v / 2 ^ u)) as [H1 H2].
  set (m := inject_Z (round_half_even (v / 2 ^ u))) in *.
  assert (Hv' : (v / 2 ^ u * 2 ^ u == v)%Q).
  { rewrite Qmult_comm. apply Qmult_div_r.
    intros H0. rewrite H0 in Hu. discriminate. }
  assert (Hhalf : (2 ^ (ilog2 v - 53) == (1 # 2) * 2 ^ u)%Q).
  { replace (ilog2 v - 53) with (-1 + u) by (unfold u; lia).
    rewrite pow2_add. reflexivity. }
  rewrite Hhalf.
  apply (Qmult_le_compat_r _ _ (2 ^ u)) in H1; [| lra].
  apply (Qmult_le_compat_r _ _ (2 ^ u)) in H2; [| lra].
  set (x := (v / 2 ^ u)%Q) in *. set (P := (2 ^ u)%Q) in *.
  assert (E1 : ((m - x) * P == m * P - x * P)%Q) by ring.
  assert (E2 : ((x - m) * P == x * P - m * P)%Q) by ring.
  rewrite E1, Hv' in H1. rewrite E2, Hv' in H2. split; assumption.
Qed.

(** A number of hundredths between 0 and 20 is converted to a double
    within 2^-49 of it. *)
Lemma hundredths_double_near k :
  0 < k < 2000 →
  (nearest_double (k # 100) - (k # 100) <= 1 # 562949953421312)%Q ∧
  ((k # 100) - nearest_double (k # 100) <= 1 # 562949953421312)%Q.
Proof.
  intros Hk.
  assert (Hpos : (0 < k # 100)%Q) by (unfold Qlt; simpl; lia).
  assert (Hlt : (k # 100 < 2 ^ 5)%Q) by (unfold Qlt; simpl; lia).
  pose proof (ilog2_below _ 5 Hpos Hlt) as HE.
  destruct (nearest_double_pos_near _ Hpos) as [H1 H2].
  assert (Hulp : (2 ^ (ilog2 (k # 100) - 53) <= 1 # 562949953421312)%Q).
  { apply Qle_trans with (2 ^ (-49))%Q; [apply pow2_le; lia |].
    unfold Qle. simpl. lia. }
  unfold nearest_double. rewrite Qred_correct.
  destruct (Qcompare_spec (k # 100) 0) as [H | H | H]; [exfalso; lra | exfalso; lra |].
  split; lra.
Qed.

Lemma nearest_double_hundredths_lt_20 k :
  (nearest_double (k # 100) < inject_Z 20)%Q ↔ k < 2000.
Proof.
  split.
  - intros Hlt. destruct (Z_lt_le_dec k 2000) as [H | H]; [exact H | exfalso].
    assert (Hle : (20 <= k # 100)%Q) by (unfold Qle; simpl; lia).
    apply nearest_double_mono in Hle.
    change (inject_Z 20) with 20%Q in Hlt.
    change (nearest_double 20) with 20%Q in Hle || (
      assert (H20 : nearest_double 20 = 20%Q) by (vm_compute; reflexivity);
      rewrite H20 in Hle).
    lra.
  - intros Hk.
    assert (Hle : (k # 100 <= 1999 # 100)%Q) by (unfold Qle; simpl; lia).
    apply nearest_double_mono in Hle.
    assert (Htop : (nearest_double (1999 # 100) < inject_Z 20)%Q).
    { vm_compute. reflexivity. }
    lra.
Qed.

Lemma nearest_double_hundredths_gt_0 k :
  (inject_Z 0 < nearest_double (k # 100))%Q ↔ 0 < k.
Proof.
  split.
  - intros Hlt. destruct (Z_lt_le_dec 0 k) as [H | H]; [exact H | exfalso].
    assert (Hle : (k # 100 <= 0)%Q) by (unfold Qle; simpl; lia).
    apply nearest_double_mono in Hle.
    assert (H0 : nearest_double 0 = 0%Q) by (vm_compute; reflexivity).
    rewrite H0 in Hle. change (inject_Z 0) with 0%Q in Hlt. lra.
  - intros Hk.
    assert (Hle : (1 # 100 <= k # 100)%Q) by (unfold Qle; simpl; lia).
    apply nearest_double_mono in Hle.
    assert (Hbot : (inject_Z 0 < nearest_double (1 # 100))%Q).
    { vm_compute. reflexivity. }
    lra.
Qed.

(** ** The clamp as a function of the raw prediction *)

Lemma round_half_even_le_0 x : round_half_even x ≤ 0 ↔ (x <= 1 # 2)%Q.
Proof.
  split.
  - intros Hle. destruct (round_half_even_near x) as [_ Hnear].
    assert (Hq : (inject_Z (round_half_even x) <= 0)%Q).
    { change 0%Q with (inject_Z 0). by rewrite <- Zle_Qle. }
    lra.
  - intros Hle. apply round_half_even_mono in Hle. exact Hle.
Qed.

Lemma round_half_even_ge_2000 x : 2000 ≤ round_half_even x ↔ (3999 # 2 <= x)%Q.
Proof.
  split.
  - intros Hle. destruct (round_half_even_near x) as [Hnear _].
    assert (Hq : (inject_Z 2000 <= inject_Z (round_half_even x))%Q).
    { by rewrite <- Zle_Qle. }
    change (inject_Z 2000) with 2000%Q in Hq. lra.
  - intros Hle. apply round_half_even_mono in Hle. exact Hle.
Qed.

(** The clamp of a finite prediction, by the number of hundredths it
    rounds to. *)
Lemma clamp_prediction_finite q :
  clamp_prediction (Fin q) =
    if decide (2000 ≤ round_half_even (q * 100)) then PyInt 20
    else if decide (round_half_even (q * 100) ≤ 0) then PyInt 0
    else PyFloat (Fin (nearest_double (round_half_even (q * 100) # 100))).
Proof.
  unfold clamp_prediction, py_min, py_max, py_lt, py_round2. cbn [to_float].
  set (k := round_half_even (q * 100)).
  destruct (float_lt (Fin (nearest_double (k # 100))) (Fin (inject_Z 20))) eqn:H20.
  - apply (proj1 (float_lt_Fin _ _)) in H20.
    apply (proj1 (nearest_double_hundredths_lt_20 _)) in H20.
    rewrite decide_False by lia. cbn [to_float].
    destruct (float_lt (Fin (inject_Z 0)) (Fin (nearest_double (k # 100)))) eqn:H0.
    + apply (proj1 (float_lt_Fin _ _)) in H0.
      apply (proj1 (nearest_double_hundredths_gt_0 _)) in H0.
      by rewrite decide_False by lia.
    + rewrite decide_True; [reflexivity |].
      destruct (decide (k ≤ 0)) as [|Hpos]; [done |].
      assert (Hlt : float_lt (Fin (inject_Z 0)) (Fin (nearest_double (k # 100))) = true).
      { apply float_lt_Fin. apply nearest_double_hundredths_gt_0. lia. }
      congruence.
  - rewrite decide_True; [reflexivity |].
    destruct (decide (2000 ≤ k)) as [|Hlt]; [done |].
    assert (H : float_lt (Fin (nearest_double (k # 100))) (Fin (inject_Z 20)) = true).
    { apply float_lt_Fin. apply nearest_double_hundredths_lt_20. lia. }
    congruence.
Qed.

Lemma scaled_le_half q : (q * 100 <= 1 # 2)%Q ↔ (q <= 1 # 200)%Q.
Proof. split; intros H; lra. Qed.

Lemma scaled_ge_top q : (3999 # 2 <= q * 100)%Q ↔ (3999 # 200 <= q)%Q.
Proof. split; intros H; lra. Qed.

(** Where the clamp returns its bounds: the [int] 0 exactly for raw
    predictions up to 0.005, the [int] 20 exactly from 19.995 on, a
    [float] strictly between; NaN and plus infinity are shown as 20,
    minus infinity as 0. *)
Theorem clamp_prediction_thresholds (q : Q) :
  (clamp_prediction (Fin q) = PyInt 0 ↔ (q <= 1 # 200)%Q) ∧
  (clamp_prediction (Fin q) = PyInt 20 ↔ (3999 # 200 <= q)%Q) ∧
  ((∃ f, clamp_prediction (Fin q) = PyFloat f) ↔
     (1 # 200 < q)%Q ∧ (q < 3999 # 200)%Q) ∧
  clamp_prediction NaN = PyInt 20 ∧
  clamp_prediction PInf = PyInt 20 ∧
  clamp_prediction NInf = PyInt 0.
Proof.
  rewrite clamp_prediction_finite.
  rewrite <- scaled_le_half, <- scaled_ge_top.
  rewrite <- round_half_even_le_0, <- round_half_even_ge_2000.
  set (k := round_half_even (q * 100)).
  assert (Hlt : (1 # 200 < q)%Q ∧ (q < 3999 # 200)%Q ↔ ¬ k ≤ 0 ∧ ¬ 2000 ≤ k).
  { unfold k. rewrite round_half_even_le_0, round_half_even_ge_2000.
    rewrite scaled_le_half, scaled_ge_top.
    split; intros [H1 H2]; split;
      first [ by apply Qlt_not_le | by apply Qnot_le_lt ]. }
  rewrite Hlt. clear Hlt.
  split; [| split; [| split; [| by repeat split]]];
    destruct (decide (2000 ≤ k)), (decide (k ≤ 0)); split;
    first [ intros [f Hf]; discriminate Hf
          | intros [? ?]; lia
          | intros _; eexists; reflexivity
          | intros H; first [discriminate H | lia | reflexivity | split; lia] ].
Qed.

Lemma clamp_prediction_value q :
  ∃ g, finite_value (clamp_prediction (Fin q)) = Some g ∧
       ((q <= 1 # 200)%Q → g = 0%Q) ∧
       ((3999 # 200 <= q)%Q → g = 20%Q) ∧
       ((1 # 200 < q)%Q → (q < 3999 # 200)%Q →
          0 < round_half_even (q * 100) < 2000 ∧
          g = nearest_double (round_half_even (q * 100) # 100)).
Proof.
  rewrite clamp_prediction_finite.
  pose proof (round_half_even_le_0 (q * 100)) as H0.
  pose proof (round_half_even_ge_2000 (q * 100)) as H20.
  rewrite scaled_le_half in H0. rewrite scaled_ge_top in H20.
  destruct (decide (2000 ≤ round_half_even (q * 100))) as [Hk20 | Hk20].
  - exists 20%Q. split; [reflexivity |].
    apply H20 in Hk20.
    repeat split; intros; exfalso; lra.
  - destruct (decide (round_half_even (q * 100) ≤ 0)) as [Hk0 | Hk0].
    + exists 0%Q. split; [reflexivity |].
      apply H0 in Hk0.
      repeat split; intros; exfalso; lra.
    + eexists. split; [reflexivity |].
      split; [intros Hq; exfalso; tauto |].
      split; [intros Hq; exfalso; tauto |].
      intros _ _. split; [lia | reflexivity].
Qed.

(** The grade shown for a finite raw prediction is 0 when the prediction
    is at most 0 and 20 when it is at least 20; for a prediction in
    [0, 20] it is within 0.005 + 2^-49 of the prediction: half a hundredth
    for the rounding to two decimals, and 2^-49 for the conversion of
    that decimal to the nearest double. *)
Theorem clamp_prediction_accuracy (q : Q) :
  ∃ g, finite_value (clamp_prediction (Fin q)) = Some g ∧
       ((q <= 0)%Q → (g == 0)%Q) ∧
       ((20 <= q)%Q → (g == 20)%Q) ∧
       ((0 <= q)%Q → (q <= 20)%Q →
          (g - q <= (1 # 200) + (1 # 562949953421312))%Q ∧
          (q - g <= (1 # 200) + (1 # 562949953421312))%Q).
Proof.
  destruct (clamp_prediction_value q) as (g & Hg & H0 & H20 & Hmid).
  exists g. split; [exact Hg |].
  destruct (Qlt_le_dec (1 # 200) q) as [Hlo | Hlo];
    [destruct (Qlt_le_dec q (3999 # 200)) as [Hhi | Hhi] |].
  - destruct (Hmid Hlo Hhi) as [Hk ->].
    destruct (round_half_even_near (q * 100)) as [Hr1 Hr2].
    destruct (hundredths_double_near _ Hk) as [Hd1 Hd2].
    set (k := round_half_even (q * 100)) in *.
    assert (Hk100 : (k # 100 == inject_Z k * (1 # 100))%Q).
    { unfold Qeq. simpl. lia. }
    set (d := nearest_double (k # 100)) in *.
    set (x := (k # 100)%Q) in *. set (z := inject_Z k) in *.
    repeat split; intros; lra.
  - rewrite (H20 Hhi). repeat split; intros; lra.
  - rewrite (H0 Hlo). repeat split; intros; lra.
Qed.

(** The clamp keeps the order of raw predictions: a greater prediction
    never shows a smaller grade. *)
Theorem clamp_prediction_monotone (p q : Q) :
  (p <= q)%Q →
  ∃ gp gq, finite_value (clamp_prediction (Fin p)) = Some gp ∧
           finite_value (clamp_prediction (Fin q)) = Some gq ∧
           (gp <= gq)%Q.
Proof.
  intros Hpq.
  assert (Hk : round_half_even (p * 100) ≤ round_half_even (q * 100)).
  { apply round_half_even_mono. lra. }
  rewrite !clamp_prediction_finite.
  set (kp := round_half_even (p * 100)) in *.
  set (kq := round_half_even (q * 100)) in *.
  assert (Hcmp : (nearest_double (kp # 100) <= nearest_double (kq # 100))%Q).
  { apply nearest_double_mono. unfold Qle. simpl. lia. }
  assert (Hlo : 0 < kq → (inject_Z 0 <= nearest_double (kq # 100))%Q).
  { intros H. apply Qlt_le_weak, nearest_double_hundredths_gt_0, H. }
  assert (Hhi : kp < 2000 → (nearest_double (kp # 100) <= inject_Z 20)%Q).
  { intros H. apply Qlt_le_weak, nearest_double_hundredths_lt_20, H. }
  destruct (decide (2000 ≤ kp)), (decide (2000 ≤ kq)),
           (decide (kp ≤ 0)), (decide (kq ≤ 0)); try lia;
    eexists _, _; (split; [reflexivity |]); (split; [reflexivity |]);
    first [ exact Hcmp | apply Hlo; lia | apply Hhi; lia
          | (unfold Qle; simpl; lia) ].
Qed.

Lemma clamp_prediction_monotone_witness :
  (1234 # 100 <= 1999 # 100)%Q ∧
  ∃ gp gq, finite_value (clamp_prediction (Fin (1234 # 100))) = Some gp ∧
           finite_value (clamp_prediction (Fin (1999 # 100))) = Some gq ∧
           (gp <= gq)%Q.
Proof.
  assert (Hle : (1234 # 100 <= 1999 # 100)%Q).
  { unfold Qle. simpl. lia. }
  split; [exact Hle |].
  exact (clamp_prediction_monotone (1234 # 100) (1999 # 100) Hle).
Defined.

(** ** Completing frames other than the form's *)

Lemma fill_defaults_columns_incl cols df filled c :
  fill_defaults cols df = Some filled →
  c ∈ Frame.columns filled ↔ c ∈ Frame.columns df ∨ c ∈ cols.
Proof.
  intros Hfill. rewrite <- !get_is_Some, (fill_defaults_get _ _ _ c Hfill).
  destruct (Frame.get df c) eqn:Hget.
  - split; [intros _; left; eauto | intros _; eauto].
  - destruct (decide (c ∈ cols)) as [Hin | Hnin].
    + split; [by right |]. intros _.
      destruct (defaults !! c) eqn:Hd; [eauto |].
      exfalso. revert df Hfill Hget. induction cols as [| c0 cols IH]; intros df Hfill Hget.
      { by apply elem_of_nil in Hin. }
      simpl in Hfill. destruct (Frame.contains c0 df) eqn:Hc0.
      * apply contains_true, get_is_Some in Hc0.
        apply elem_of_cons in Hin as [-> | Hin].
        -- rewrite Hget in Hc0. by destruct Hc0.
        -- by apply (IH Hin df).
      * destruct (defaults !! c0) as [d0 |] eqn:Hd0; [| discriminate].
        apply elem_of_cons in Hin as [-> | Hin]; [congruence |].
        apply (IH Hin _ Hfill).
        destruct (decide (c0 = c)) as [-> | Hne]; [congruence |].
        by rewrite get_setitem_ne.
    + split; [intros [? ?]; discriminate |].
      intros [[? ?] | ?]; [discriminate | contradiction].
Qed.

Lemma fill_defaults_None cols df :
  fill_defaults cols df = None ↔
  ∃ c, c ∈ cols ∧ (c ∉ Frame.columns df) ∧ defaults !! c = None.
Proof.
  split.
  - revert df. induction cols as [| c0 cols IH]; simpl; intros df Hfill;
      [discriminate |].
    destruct (Frame.contains c0 df) eqn:Hc0.
    + destruct (IH _ Hfill) as (c & Hin & Hnin & Hd).
      exists c. split; [by apply list_elem_of_further | done].
    + apply not_true_iff_false in Hc0. rewrite contains_true in Hc0.
      destruct (defaults !! c0) as [d0 |] eqn:Hd0.
      * destruct (IH _ Hfill) as (c & Hin & Hnin & Hd).
        exists c. split; [by apply list_elem_of_further |]. split; [| exact Hd].
        rewrite columns_setitem_new in Hnin by done.
        intros Hc. apply Hnin, elem_of_app. by left.
      * exists c0. split; [apply list_elem_of_here | done].
  - intros (c & Hin & Hnin & Hd).
    destruct (fill_defaults cols df) as [filled |] eqn:Hfill; [| reflexivity].
    exfalso.
    assert (Hc : c ∈ Frame.columns filled).
    { apply (fill_defaults_columns_incl _ _ _ _ Hfill). by right. }
    apply get_is_Some in Hc. rewrite (fill_defaults_get _ _ _ c Hfill) in Hc.
    apply get_None in Hnin. rewrite Hnin, decide_True, Hd in Hc by done.
    by destruct Hc.
Qed.

(** The schema columns without a default are the six form columns. *)
Lemma no_default_iff_user_col :
  Forall (λ c, (defaults !! c = None) ↔ (c ∈ user_cols)) required_cols ∧
  Forall (λ c, c ∈ required_cols) user_cols.
Proof.
  split.
  - unfold required_cols.
    repeat (apply Forall_cons; split;
      [apply (bool_decide_unpack _); vm_compute; exact I |]).
    apply Forall_nil_2.
  - apply (bool_decide_unpack _). vm_compute. exact I.
Qed.

Lemma complete_row_unfold df :
  complete_row df =
    match fill_defaults required_cols df with
    | None => None
    | Some filled => Frame.select filled required_cols
    end.
Proof. reflexivity. Qed.

(** The completion raises [KeyError] exactly on the frames that lack one
    of the six form columns: those are the schema columns [defaults] has
    no entry for, and the reindexing itself never raises. *)
Theorem complete_row_raises_iff (input_df : DataFrame) :
  complete_row input_df = None ↔
  ∃ col, col ∈ user_cols ∧ col ∉ Frame.columns input_df.
Proof.
  destruct no_default_iff_user_col as [Hnodef Huser].
  rewrite Forall_forall in Hnodef. rewrite Forall_forall in Huser.
  rewrite complete_row_unfold.
  split.
  - destruct (fill_defaults required_cols input_df) as [filled |] eqn:Hfill.
    + intros Hnone. exfalso.
      destruct (select_is_Some filled required_cols) as [r Hr]; [| congruence].
      intros c Hc. apply (fill_defaults_columns_incl _ _ _ _ Hfill). by right.
    + intros _. apply fill_defaults_None in Hfill as (c & Hin & Hnin & Hd).
      exists c. split; [exact (proj1 (Hnodef c Hin) Hd) | exact Hnin].
  - intros (c & Hin & Hnin).
    assert (Hfill : fill_defaults required_cols input_df = None).
    { apply fill_defaults_None. exists c.
      split; [exact (Huser c Hin) |]. split; [exact Hnin |].
      exact (proj2 (Hnodef c (Huser c Hin)) Hin). }
    rewrite Hfill. reflexivity.
Qed.

(** The completion of any frame it accepts: the columns are those of the
    schema in order; a cell supplied for a schema column is kept, also
    where [defaults] has an entry for that column; columns outside the
    schema are dropped. *)
Theorem complete_row_of_any_frame (input_df row : DataFrame) :
  complete_row input_df = Some row →
  Frame.columns row = required_cols ∧
  (∀ col, col ∈ required_cols → Frame.get row col = overlay input_df col) ∧
  (∀ col, col ∉ required_cols → Frame.get row col = None).
Proof.
  intros Hrow. pose proof (complete_row_columns _ _ Hrow) as Hcols.
  split; [exact Hcols |]. split.
  - intros col Hcol. exact (complete_row_get _ _ _ Hrow Hcol).
  - intros col Hcol. apply get_None. by rewrite Hcols.
Qed.

Lemma complete_row_of_any_frame_witness :
  ∃ row,
    complete_row (extended_frame initial_fields) = Some row ∧
    Frame.get row "G1" = Some (CInt 15) ∧
    Frame.get row "nickname" = None ∧
    Frame.columns row = required_cols ∧
    (∀ col, col ∈ required_cols →
            Frame.get row col = overlay (extended_frame initial_fields) col) ∧
    (∀ col, col ∉ required_cols → Frame.get row col = None).
Proof.
  eexists. split; [vm_compute; reflexivity |].
  split; [vm_compute; reflexivity |]. split; [vm_compute; reflexivity |].
  apply (complete_row_of_any_frame (extended_frame initial_fields)).
  vm_compute. reflexivity.
Defined.

Lemma fill_defaults_present cols df :
  (∀ c, c ∈ cols → c ∈ Frame.columns df) → fill_defaults cols df = Some df.
Proof.
  induction cols as [| c cols IH]; intros Hall; simpl; [reflexivity |].
  rewrite (proj2 (contains_true df c)) by apply Hall, list_elem_of_here.
  apply IH. intros c' Hc'. by apply Hall, list_elem_of_further.
Qed.

Lemma select_cons_notin c v df cols :
  c ∉ cols → Frame.select ((c, v) :: df) cols = Frame.select df cols.
Proof.
  induction cols as [| c0 cols IH]; intros Hnin; simpl; [reflexivity |].
  apply not_elem_of_cons in Hnin as [Hne Hnin].
  rewrite decide_False by done. by rewrite IH.
Qed.

Lemma select_self df :
  NoDup (Frame.columns df) → Frame.select df (Frame.columns df) = Some df.
Proof.
  induction df as [| [c v] df IH]; simpl; intros Hnd; [reflexivity |].
  apply NoDup_cons in Hnd as [Hnin Hnd].
  rewrite decide_True by done.
  rewrite select_cons_notin by done. by rewrite IH.
Qed.

Lemma required_cols_NoDup : NoDup required_cols.
Proof. apply (bool_decide_unpack _). vm_compute. exact I. Qed.

(** Completing a completed row changes nothing: no default is written
    over a cell of the row and the reindexing returns the row itself. *)
Theorem complete_row_idempotent (input_df row : DataFrame) :
  complete_row input_df = Some row → complete_row row = Some row.
Proof.
  intros Hrow. pose proof (complete_row_columns _ _ Hrow) as Hcols.
  rewrite complete_row_unfold, fill_defaults_present.
  - rewrite <- Hcols. apply select_self. rewrite Hcols. exact required_cols_NoDup.
  - intros c Hc. by rewrite Hcols.
Qed.

Lemma complete_row_idempotent_witness :
  ∃ row, complete_row (shuffled_frame initial_fields) = Some row ∧
         complete_row row = Some row.
Proof.
  eexists. split; [vm_compute; reflexivity |].
  apply (complete_row_idempotent (shuffled_frame initial_fields)).
  vm_compute. reflexivity.
Defined.

(** ** The Feature Row and the trainer's column lists *)

(** For every form input, a schema column of the Feature Row holds a
    string exactly when the trainer one-hot encodes it, and an integer
    exactly when the trainer passes it through; every encoded column is a
    column of the row, and none is listed twice. *)
Theorem feature_row_cell_kinds (u : user_fields) :
  ∃ row, feature_row u = Some row ∧
    Forall (λ col, match Frame.get row col with
                   | Some (CStr _) => col ∈ categorical_cols
                   | Some (CInt _) => col ∉ categorical_cols
                   | None => False
                   end) required_cols ∧
    Forall (λ col, col ∈ Frame.columns row) categorical_cols ∧
    NoDup categorical_cols.
Proof.
  eexists. split; [apply feature_row_unfold |].
  destruct u as [sch sx ag st fl ab].
  cbn [school sex age studytime failures absences].
  split; [| split].
  - unfold required_cols.
    repeat (apply Forall_cons; split;
      [apply (bool_decide_unpack _); vm_compute; exact I |]).
    apply Forall_nil_2.
  - apply (bool_decide_unpack _). vm_compute. exact I.
  - apply (bool_decide_unpack _). vm_compute. exact I.
Qed.

(** The Feature Row determines the form input: two inputs that differ in
    one of the six fields give different rows. *)
Theorem feature_row_injective (u1 u2 : user_fields) :
  feature_row u1 = feature_row u2 → u1 = u2.
Proof.
  rewrite !feature_row_unfold.
  destruct u1, u2. cbn [school sex age studytime failures absences].
  intros Heq. injection Heq as -> -> -> -> -> ->. reflexivity.
Qed.

Lemma feature_row_injective_witness :
  feature_row initial_fields = feature_row initial_fields ∧
  initial_fields = initial_fields.
Proof.
  split; [reflexivity |].
  exact (feature_row_injective initial_fields initial_fields eq_refl).
Defined.

(** ** The global-importance view *)

(** The second tab keeps the ten rows of greatest importance, the
    greatest first; it keeps all rows when there are fewer than ten,
    leaves out only rows of importance at most that of every row kept,
    and draws rows of the frame unchanged. *)
Theorem top10_by_importance (fi_df : list (string * Q)) :
  length (top10 fi_df) = min 10 (length fi_df) ∧
  StronglySorted (λ a b, (b.2 <= a.2)%Q) (top10 fi_df) ∧
  (∃ rest, fi_df ≡ₚ top10 fi_df ++ rest ∧
           ∀ a b, a ∈ top10 fi_df → b ∈ rest → (b.2 <= a.2)%Q) ∧
  (∀ bar, bar ∈ top10 fi_df → bar ∈ fi_df) ∧
  ((length fi_df ≤ 10)%nat → top10 fi_df ≡ₚ fi_df).
Proof.
  destruct (head_sorted_spec snd 10 fi_df) as (Hlen & Hsorted & rest & Hperm & Hrest).
  fold (top10 fi_df) in Hlen, Hsorted, Hperm, Hrest.
  split; [exact Hlen |]. split; [exact Hsorted |].
  split; [exists rest; by split |]. split.
  - intros bar Hbar. rewrite Hperm. apply elem_of_app. by left.
  - intros Hshort. unfold top10, head.
    rewrite take_ge.
    + apply sort_values_desc_perm.
    + by rewrite (Permutation_length (sort_values_desc_perm snd fi_df)).
Qed.

(** On twelve importances the two least are left out. *)
Example top10_demo :
  top10 demo_fi_df = [
    ("g2", 30 # 100); ("g6", 25 # 100); ("g11", 9 # 100); ("g10", 8 # 100);
    ("g9", 7 # 100); ("g8", 6 # 100); ("g7", 5 # 100); ("g5", 4 # 100);
    ("g4", 3 # 100); ("g3", 2 # 100)
  ]%Q.
Proof. vm_compute. reflexivity. Qed.

(** ** Clamping a grade again *)

(** Rounding the double nearest to [k] hundredths gives [k] hundredths
    again. *)
Lemma round_half_even_hundredths k :
  0 < k < 2000 → round_half_even (nearest_double (k # 100) * 100) = k.
Proof.
  intros Hk. destruct (hundredths_double_near _ Hk) as [Hd1 Hd2].
  assert (Hk100 : (k # 100 == inject_Z k * (1 # 100))%Q).
  { unfold Qeq. simpl. lia. }
  apply round_half_even_unique;
    set (d := nearest_double (k # 100)) in *;
    set (x := (k # 100)%Q) in *; set (z := inject_Z k) in *; lra.
Qed.

(** A grade the clamp returned is returned unchanged when clamped again,
    with the same type: 0 and 20 stay [int], a value in between stays the
    same [float]. *)
Theorem clamp_prediction_idempotent (p : pyfloat) :
  clamp_prediction (to_float (clamp_prediction p)) = clamp_prediction p.
Proof.
  destruct (clamp_prediction_cases p) as [[Hc (q & Hq & H0 & H20)] | [-> | ->]];
    [| vm_compute; reflexivity | vm_compute; reflexivity].
  rewrite Hc, Hq. cbn [to_float].
  destruct p as [| | | q0]; simpl in Hq; try discriminate.
  injection Hq as <-.
  set (k := round_half_even (q0 * 100)) in *.
  assert (Hk0 : 0 < k).
  { apply nearest_double_hundredths_gt_0. exact H0. }
  assert (Hk20 : k < 2000).
  { apply nearest_double_hundredths_lt_20. exact H20. }
  rewrite clamp_prediction_finite, round_half_even_hundredths by lia.
  rewrite !decide_False by lia. reflexivity.
Qed.
